(** * node-loggly-bulk: the message preparation and dispatch pipeline

    A shallow embedding of [lib/loggly/client.js]: the truncation step
    ([truncateLargeMessage]), the serialisation helpers ([stringify],
    the inner [serialize] of [log]), the tag filter ([tagFilter]), the
    assembly of the request in [Loggly.prototype.log] and the completion
    handler it passes to the delivery layer.

    JavaScript strings are sequences of UTF-16 code units; objects live
    in a heap and are referred to by location, so that cyclic messages
    can be written down. *)

From Stdlib Require Import ZArith NArith List Ascii String Lia.
From Stdlib Require Import Numbers.DecimalString Numbers.DecimalPos Numbers.DecimalZ.
From stdpp Require Import base option list gmap strings.

Local Open Scope Z_scope.

(** ** JavaScript strings *)

Module JsString.

(** A string is the list of its UTF-16 code units. *)
Definition code_unit := N.
Definition jsstring := list code_unit.

(** String literals of the source: every character of the literals used
    in [client.js] is ASCII, one code unit each. *)
Definition js (s : string) : jsstring :=
  map N_of_ascii (list_ascii_of_string s).

Definition is_high_surrogate (c : code_unit) : bool :=
  ((0xD800 <=? c) && (c <=? 0xDBFF))%N.

Definition is_low_surrogate (c : code_unit) : bool :=
  ((0xDC00 <=? c) && (c <=? 0xDFFF))%N.

(** [Buffer.byteLength(str)] with the default encoding, UTF-8: one byte
    below U+0080, two below U+0800, four for a surrogate pair, three for
    anything else (a lone surrogate is encoded as U+FFFD). *)
Fixpoint byteLength (s : jsstring) : Z :=
  match s with
  | [] => 0
  | c :: rest =>
      if (c <? 0x80)%N then 1 + byteLength rest
      else if (c <? 0x800)%N then 2 + byteLength rest
      else if is_high_surrogate c then
        match rest with
        | d :: rest' =>
            if is_low_surrogate d then 4 + byteLength rest'
            else 3 + byteLength rest
        | [] => 3
        end
      else 3 + byteLength rest
  end.

(** [String.prototype.slice(start, end)]: indices count code units,
    negative ones count from the end, both are clamped to the string. *)
Definition slice (s : jsstring) (start end_ : Z) : jsstring :=
  let len := Z.of_nat (length s) in
  let from := if start <? 0 then Z.max (len + start) 0 else Z.min start len in
  let to := if end_ <? 0 then Z.max (len + end_) 0 else Z.min end_ len in
  let span := Z.max (to - from) 0 in
  take (Z.to_nat span) (drop (Z.to_nat from) s).

(** [Array.prototype.join(sep)] on an array of strings. *)
Fixpoint join (sep : jsstring) (l : list jsstring) : jsstring :=
  match l with
  | [] => []
  | [x] => x
  | x :: rest => x ++ sep ++ join sep rest
  end.

(** Text made of single-byte characters only. *)
Definition single_byte (s : jsstring) : Prop := Forall (fun c => (c < 0x80)%N) s.

End JsString.
Import JsString.

(** ** The truncation step *)

(** [let EVENT_SIZE = 1000 * 1000;] *)
Definition EVENT_SIZE : Z := 1000 * 1000.

Record truncated := Truncated {
  message : jsstring;
  isMessageTruncated : bool
}.

Definition truncateLargeMessage (message : jsstring) : truncated :=
  let maximumBytesAllowedToLoggly := EVENT_SIZE in
  let bytesLengthOfLogMessage := byteLength message in
  if bytesLengthOfLogMessage >? maximumBytesAllowedToLoggly
  then {| message := slice message 0 maximumBytesAllowedToLoggly;
          isMessageTruncated := true |}
  else {| message := message; isMessageTruncated := false |}.

(** ** Values, objects and the heap *)

Definition loc := positive.

(** Numbers are the integer-valued ones (in the safe range, where
    [Number.prototype.toString] prints plain decimal digits). *)
Inductive value :=
  | VUndefined
  | VNull
  | VBoolean (b : bool)
  | VNumber (n : Z)
  | VString (s : jsstring)
  | VFunction
  | VObject (l : loc).

(** An object is a plain object (own enumerable string-keyed properties in
    insertion order) or an array. *)
Inductive object :=
  | Obj (props : list (jsstring * value))
  | Arr (elems : list value).

Abbreviation heap := (gmap loc object).

Inductive jstype := TUndefined | TObject | TBoolean | TNumber | TString | TFunction.

Definition typeof (v : value) : jstype :=
  match v with
  | VUndefined => TUndefined
  | VNull => TObject
  | VBoolean _ => TBoolean
  | VNumber _ => TNumber
  | VString _ => TString
  | VFunction => TFunction
  | VObject _ => TObject
  end.

(** [v instanceof Object] *)
Definition instanceof_Object (v : value) : bool :=
  match v with
  | VObject _ | VFunction => true
  | _ => false
  end.

(** [Array.isArray(v)], with the elements when it is one. *)
Definition as_array (h : heap) (v : value) : option (list value) :=
  match v with
  | VObject l => match h !! l with Some (Arr elems) => Some elems | _ => None end
  | _ => None
  end.

(** [new Object] with the given properties. *)
Definition alloc (h : heap) (o : object) : loc * heap :=
  let l := fresh (dom h) in (l, <[l := o]> h).

(** ** Exceptions and results *)

(** A thrown [Error] object, by its [name] and [message]. *)
Record exn := Error { exn_name : jsstring; exn_message : jsstring }.

(** [Error.prototype.toString] *)
Definition exn_toString (e : exn) : jsstring :=
  match exn_name e, exn_message e with
  | [], m => m
  | n, [] => n
  | n, m => n ++ js ": " ++ m
  end.

(** The outcome of a call: a value, an exception, or [Stuck] when the
    model has no answer (a reference to a location that is not allocated,
    or the fuel of the serialiser used up). *)
Inductive result (A : Type) :=
  | Ok (a : A)
  | Throw (e : exn)
  | Stuck.
Arguments Ok {A} a.
Arguments Throw {A} e.
Arguments Stuck {A}.

#[global] Instance result_ret : MRet result := @Ok.
#[global] Instance result_bind : MBind result := λ A B f m,
  match m with
  | Ok a => f a
  | Throw e => Throw e
  | Stuck => Stuck
  end.
#[global] Instance result_fmap : FMap result := λ A B f m,
  match m with
  | Ok a => Ok (f a)
  | Throw e => Throw e
  | Stuck => Stuck
  end.

(** [try { m } catch (ex) { handler(ex) }] *)
Definition try_catch {A} (m : result A) (handler : exn → result A) : result A :=
  match m with
  | Throw ex => handler ex
  | r => r
  end.

(** ** JSON.stringify *)

Module JSON.

(** The quotation mark, U+0022, and the reverse solidus, U+005C. *)
Definition dq : jsstring := [34%N].
Definition bs : jsstring := [92%N].

Definition hex_digit (n : N) : code_unit :=
  (if n <? 10 then 48 + n else 87 + n)%N.

(** The [u] escape: four lower-case hexadecimal digits. *)
Definition UnicodeEscape (c : code_unit) : jsstring :=
  bs ++ js "u" ++ [hex_digit (c / 4096 mod 16); hex_digit (c / 256 mod 16);
              hex_digit (c / 16 mod 16); hex_digit (c mod 16)]%N.

(** The characters of [QuoteJSONString]: the short escapes, the [u] escape for
    the other control characters and for lone surrogates, everything
    else as it is. *)
Fixpoint quote_chars (s : jsstring) : jsstring :=
  match s with
  | [] => []
  | c :: rest =>
      if (c =? 8)%N then bs ++ js "b" ++ quote_chars rest
      else if (c =? 9)%N then bs ++ js "t" ++ quote_chars rest
      else if (c =? 10)%N then bs ++ js "n" ++ quote_chars rest
      else if (c =? 12)%N then bs ++ js "f" ++ quote_chars rest
      else if (c =? 13)%N then bs ++ js "r" ++ quote_chars rest
      else if (c =? 34)%N then bs ++ dq ++ quote_chars rest
      else if (c =? 92)%N then bs ++ bs ++ quote_chars rest
      else if (c <? 32)%N then UnicodeEscape c ++ quote_chars rest
      else if is_high_surrogate c then
        match rest with
        | d :: rest' =>
            if is_low_surrogate d then c :: d :: quote_chars rest'
            else UnicodeEscape c ++ quote_chars rest
        | [] => UnicodeEscape c
        end
      else if is_low_surrogate c then UnicodeEscape c ++ quote_chars rest
      else c :: quote_chars rest
  end.

Definition QuoteJSONString (s : jsstring) : jsstring :=
  dq ++ quote_chars s ++ dq.

(** The characters that [quote_chars] leaves as they are, surrogates apart. *)
Definition unescaped (c : code_unit) : bool :=
  ((32 <=? c) && (c <? 0xD800) && negb (c =? 34) && negb (c =? 92))%N.

(** [Number.prototype.toString] on an integer. *)
Definition Number_toString (n : Z) : jsstring :=
  js (NilZero.string_of_int (Z.to_int n)).

Definition circular_structure : exn :=
  Error (js "TypeError") (js "Converting circular structure to JSON").

Section serialize.
(** What happens at a reference to an object that is being serialised:
    [JSON.stringify] throws, a replacer may decide otherwise. *)
Variable on_cycle : result (option jsstring).

Section members.
Variable ser : value → result (option jsstring).

(** The members of an object: a property whose value serialises to
    [undefined] is left out. *)
Fixpoint object_members (props : list (jsstring * value)) : result (list jsstring) :=
  match props with
  | [] => Ok []
  | (k, v) :: rest =>
      str ← ser v;
      ms ← object_members rest;
      Ok (match str with
          | Some s => (QuoteJSONString k ++ js ":" ++ s) :: ms
          | None => ms
          end)
  end.

(** The elements of an array: [undefined] is written [null]. *)
Fixpoint array_elements (elems : list value) : result (list jsstring) :=
  match elems with
  | [] => Ok []
  | v :: rest =>
      str ← ser v;
      es ← array_elements rest;
      Ok (default (js "null") str :: es)
  end.
End members.

(** [SerializeJSONProperty], with the stack of the objects being
    serialised. The recursion is on [fuel], which bounds the nesting
    depth; [JSON_stringify_not_Stuck] shows that the number of objects
    of the heap is enough. *)
Fixpoint SerializeJSONProperty (fuel : nat) (h : heap) (stack : list loc)
    (v : value) : result (option jsstring) :=
  match v with
  | VUndefined | VFunction => Ok None
  | VNull => Ok (Some (js "null"))
  | VBoolean true => Ok (Some (js "true"))
  | VBoolean false => Ok (Some (js "false"))
  | VNumber n => Ok (Some (Number_toString n))
  | VString s => Ok (Some (QuoteJSONString s))
  | VObject l =>
      if bool_decide (l ∈ stack) then on_cycle
      else match h !! l, fuel with
           | None, _ => Stuck
           | Some _, O => Stuck
           | Some (Obj props), S fuel' =>
               ms ← object_members (SerializeJSONProperty fuel' h (l :: stack)) props;
               Ok (Some (js "{" ++ join (js ",") ms ++ js "}"))
           | Some (Arr elems), S fuel' =>
               es ← array_elements (SerializeJSONProperty fuel' h (l :: stack)) elems;
               Ok (Some (js "[" ++ join (js ",") es ++ js "]"))
           end
  end.
End serialize.

(** [JSON.stringify(v)]: [None] is [undefined]. *)
Definition stringify (h : heap) (v : value) : result (option jsstring) :=
  SerializeJSONProperty (Throw circular_structure) (size h) h [] v.

End JSON.
Import JSON.

(** [stringifySafe(msg, null, null, noop)] of json-stringify-safe:
    [JSON.stringify] with a replacer that hands every reference to an
    ancestor to the cycle replacer; [noop] answers [undefined]. *)
Definition stringifySafe (h : heap) (msg : value) : result (option jsstring) :=
  SerializeJSONProperty (Ok None) (size h) h [] msg.

(** [function stringify(msg)] *)
Definition stringify (h : heap) (msg : value) : result (option jsstring) :=
  try_catch (JSON.stringify h msg) (λ ex, stringifySafe h msg).

(** A string or [undefined], as a value. *)
Definition value_of_text (o : option jsstring) : value :=
  match o with
  | Some s => VString s
  | None => VUndefined
  end.

(** ** The tag filter *)

(** The [tags] argument: one tag or an array of tags. *)
Inductive tag_input :=
  | TagOne (tag : jsstring)
  | TagMany (tags : list jsstring).

(** Truthiness of a string, and of a [tags] argument (an array is truthy). *)
Definition truthy_string (s : jsstring) : bool :=
  match s with [] => false | _ => true end.

Definition truthy_tags (t : tag_input) : bool :=
  match t with
  | TagOne tag => truthy_string tag
  | TagMany _ => true
  end.

Module Regex.

Definition in_range (lo hi c : code_unit) : bool := ((lo <=? c) && (c <=? hi))%N.

(** [\d] and [\w] *)
Definition digit (c : code_unit) : bool := in_range 48%N 57%N c.
Definition word (c : code_unit) : bool :=
  in_range 97%N 122%N c || in_range 65%N 90%N c || digit c || (c =? 95)%N.

(** [[\w\d]] *)
Definition head_class (c : code_unit) : bool := word c || digit c.

(** [[\w\d-_.]]: next to a class escape the hyphen stands for itself. *)
Definition tail_class (c : code_unit) : bool :=
  word c || digit c || (c =? 45)%N || (c =? 95)%N || (c =? 46)%N.

(** What the greedy [+] over a class consumes. *)
Fixpoint longest (class : code_unit → bool) (s : jsstring) : jsstring :=
  match s with
  | c :: rest => if class c then c :: longest class rest else []
  | [] => []
  end.

(** [/^[\w\d][\w\d-_.]+/.test(s)]: the pattern is anchored at the start
    of the string only; the match succeeds as soon as [+] has consumed
    one character. *)
Definition isSolid_test (s : jsstring) : bool :=
  match s with
  | c :: rest => head_class c && truthy_string (longest tail_class rest)
  | [] => false
  end.

End Regex.

(** [Loggly.prototype.tagFilter] *)
Definition tagFilter (tags : tag_input) : list jsstring :=
  let isSolid := Regex.isSolid_test in
  let tags := match tags with TagOne tag => [tag] | TagMany tags => tags end in
  filter (λ tag, truthy_string tag && isSolid tag
                 && (Z.of_nat (length tag) <=? 64) = true) tags.

(** The test of the filter on one tag. *)
Definition kept (tag : jsstring) : bool :=
  truthy_string tag && Regex.isSolid_test tag && (Z.of_nat (length tag) <=? 64).

(** The validity of a tag as the specification words it: non-empty, the
    whole string made of a word character followed by one or more word
    characters, hyphens, underscores or dots, and at most 64 long. *)
Definition spec_valid_tag (tag : jsstring) : bool :=
  match tag with
  | c :: rest =>
      Regex.head_class c && truthy_string rest && forallb Regex.tail_class rest
      && (Z.of_nat (length tag) <=? 64)
  | [] => false
  end.

(** ** The client *)

Record buffer_options := {
  buf_size : Z;
  retriesInMilliSeconds : Z
}.

(** The options of [createClient]; [None] is a missing property. *)
Record options := {
  opt_subdomain : option jsstring;
  opt_token : option jsstring;
  opt_host : option jsstring;
  opt_json : bool;
  opt_auth : option (jsstring * jsstring);
  opt_proxy : option jsstring;
  opt_useTagHeader : option bool;
  opt_isBulk : bool;
  opt_bufferOptions : option buffer_options;
  opt_networkErrorsOnConsole : bool;
  opt_appName : option jsstring;
  opt_tags : option tag_input;
  opt_api : option jsstring
}.

Record urls_t := {
  url_default : jsstring;
  url_log : jsstring;
  url_bulk : jsstring;
  url_api : jsstring
}.

Record Loggly := {
  subdomain : jsstring;
  token : jsstring;
  host : jsstring;
  json : bool;
  auth : option (jsstring * jsstring);
  proxy : option jsstring;
  userAgent : jsstring;
  useTagHeader : bool;
  isBulk : bool;
  bufferOptions : buffer_options;
  networkErrorsOnConsole : bool;
  appName : option jsstring;
  tags : option (list jsstring);
  urls : urls_t
}.

(** [o || d] on an optional string: a missing or empty one gives [d]. *)
Definition or_else (o : option jsstring) (d : jsstring) : jsstring :=
  match o with
  | Some (c :: s) => c :: s
  | _ => d
  end.

(** A truthy optional string, or nothing. *)
Definition truthy_only (o : option jsstring) : option jsstring :=
  match o with
  | Some (c :: s) => Some (c :: s)
  | _ => None
  end.

(** The constructor [Loggly(options)]; [version] is [loggly.version]. *)
Definition new_Loggly (version : jsstring) (o : option options) : result Loggly :=
  match o with
  | None =>
      Throw (Error (js "Error") (js "options.subdomain and options.token are required."))
  | Some options =>
      match truthy_only (opt_subdomain options), truthy_only (opt_token options) with
      | Some subdomain, Some token =>
          let host := or_else (opt_host options) (js "logs-01.loggly.com") in
          let url := js "https://" ++ host in
          let api := or_else (opt_api options) (js "apiv2") in
          Ok {| subdomain := subdomain;
                token := token;
                host := host;
                json := opt_json options;
                auth := opt_auth options;
                proxy := truthy_only (opt_proxy options);
                userAgent := js "node-loggly " ++ version;
                useTagHeader := default true (opt_useTagHeader options);
                isBulk := opt_isBulk options;
                bufferOptions :=
                  default {| buf_size := 500; retriesInMilliSeconds := 30 * 1000 |}
                          (opt_bufferOptions options);
                networkErrorsOnConsole := opt_networkErrorsOnConsole options;
                appName := truthy_only (opt_appName options);
                tags := match opt_tags options with
                        | Some t => if truthy_tags t then Some (tagFilter t) else None
                        | None => None
                        end;
                urls := {| url_default := url;
                           url_log := join (js "/") [url; js "inputs"; token];
                           url_bulk := join (js "/") [url; js "bulk"; token];
                           url_api := js "https://"
                                      ++ join (js ".") [subdomain; js "loggly"; js "com"]
                                      ++ js "/" ++ api |} |}
      | _, _ =>
          Throw (Error (js "Error") (js "options.subdomain and options.token are required."))
      end
  end.

(** ** The request *)

(** The body: one serialised message, or in bulk mode the array that
    [msg.map(serialize)] builds. *)
Inductive body_t :=
  | BodyValue (v : value)
  | BodyArray (elems : list value).

Record logOptions := {
  uri : jsstring;
  method : jsstring;
  body : body_t;
  req_proxy : option jsstring;
  req_isBulk : bool;
  req_bufferOptions : buffer_options;
  req_networkErrorsOnConsole : bool;
  headers : gmap string jsstring
}.

(** [logOptions.headers[k] = v] and [logOptions.uri += suffix] *)
Definition set_header (k : string) (v : jsstring) (r : logOptions) : logOptions :=
  {| uri := uri r; method := method r; body := body r; req_proxy := req_proxy r;
     req_isBulk := req_isBulk r; req_bufferOptions := req_bufferOptions r;
     req_networkErrorsOnConsole := req_networkErrorsOnConsole r;
     headers := <[ k := v ]> (headers r) |}.

Definition append_uri (suffix : jsstring) (r : logOptions) : logOptions :=
  {| uri := uri r ++ suffix; method := method r; body := body r;
     req_proxy := req_proxy r; req_isBulk := req_isBulk r;
     req_bufferOptions := req_bufferOptions r;
     req_networkErrorsOnConsole := req_networkErrorsOnConsole r;
     headers := headers r |}.

(** [Buffer.byteLength] refuses anything that is not a string or a buffer. *)
Definition byteLength_type_error : exn :=
  Error (js "TypeError")
        (js "The string argument must be of type string or an instance of Buffer or ArrayBuffer.").

Section log.
(** [common.serialize] of [lib/loggly/common.js], the plain-text
    rendering of an object: taken as given. *)
Variable common_serialize : heap → value → result value.

Variable self : Loggly.
Variable h : heap.

(** Lines 119-127: the message after the truncation step. *)
Definition truncate_msg (msg : value) : result value :=
  match typeof msg, msg with
  | TObject, _ =>
      stringifiedMessage ← JSON.stringify h msg;
      match stringifiedMessage with
      | Some text =>
          let truncatedMessageObject := truncateLargeMessage text in
          Ok (if isMessageTruncated truncatedMessageObject
              then VString (message truncatedMessageObject) else msg)
      | None => Throw byteLength_type_error
      end
  | TString, VString text =>
      let truncatedMessageObject := truncateLargeMessage text in
      Ok (if isMessageTruncated truncatedMessageObject
          then VString (message truncatedMessageObject) else msg)
  | _, _ => Ok msg
  end.

(** The inner [function serialize(msg)]. *)
Definition serialize (msg : value) : result value :=
  if instanceof_Object msg then
    if json self then value_of_text <$> stringify h msg
    else common_serialize h msg
  else
    if json self then
      let '(l, h') := alloc h (Obj [(js "message", msg)]) in
      value_of_text <$> stringify h' (VObject l)
    else Ok msg.

(** Lines 171-173: the tags of the call merged with those of the client. *)
Definition merge_tags (call_tags : option tag_input) : option (list jsstring) :=
  match call_tags with
  | Some t =>
      if truthy_tags t then
        match tags self with
        | Some own => Some (own ++ tagFilter t)
        | None => Some (tagFilter t)
        end
      else tags self
  | None => tags self
  end.

(** Lines 151-193: the request for a serialised body. *)
Definition request_for (msg : body_t) (call_tags : option tag_input) : logOptions :=
  let logOptions :=
    {| uri := if isBulk self then url_bulk (urls self) else url_log (urls self);
       method := js "POST";
       body := msg;
       req_proxy := proxy self;
       req_isBulk := isBulk self;
       req_bufferOptions := bufferOptions self;
       req_networkErrorsOnConsole := networkErrorsOnConsole self;
       headers :=
         <[ "content-type" :=
              if json self then js "application/json" else js "text/plain" ]>
         (<[ "user-agent" := userAgent self ]>
         (<[ "accept" := js "*/*" ]>
         (<[ "host" := host self ]> ∅))) |} in
  let tags := merge_tags call_tags in
  let logOptions :=
    match tags with
    | Some (t :: ts) =>
        if useTagHeader self
        then set_header "X-LOGGLY-TAG" (join (js ",") (t :: ts)) logOptions
        else append_uri (js "/tag/" ++ join (js ",") (t :: ts) ++ js "/") logOptions
    | _ => logOptions
    end in
  let logOptions :=
    match appName self with
    | Some name => set_header "appName" name logOptions
    | None => logOptions
    end in
  logOptions.

(** [Loggly.prototype.log]: the request handed to [common.loggly]. A
    function in the place of [tags] is the callback, and [tags] is then
    absent (lines 128-131). *)
Definition log (msg : value) (call_tags : option tag_input) : result logOptions :=
  msg ← truncate_msg msg;
  msg ← match (if isBulk self then as_array h msg else None) with
        | Some elems => BodyArray <$> mapM serialize elems
        | None => BodyValue <$> serialize msg
        end;
  Ok (request_for msg call_tags).

End log.

(** ** The completion handler *)

(** The response of the transport. *)
Record response := {
  statusCode : Z;
  statusMessage : jsstring
}.

(** What the caller's callback is called with: [callback(null, result)] or
    [callback(new Error(message))]. *)
Inductive callback_args :=
  | CbResult (result : value)
  | CbError (message : jsstring).

(** What the handler does to the outside. *)
Inductive effect :=
  | Emit (event : string) (arg : value)
  | Callback (args : callback_args)
  | ConsoleLog (line : jsstring).

(** The surroundings of a call: what the listeners of the [log] event do
    when the event is emitted, and the callback when there is one. [None]
    is a normal return, [Some ex] an exception. *)
Record surroundings := {
  log_listeners : value → option exn;
  callback : option (callback_args → option exn)
}.

Module Run.

(** A computation that acts on the outside: the effects in order, and
    the outcome. *)
Definition run (A : Type) : Type := list effect * result A.

Definition pure {A} (r : result A) : run A := ([], r).

Definition bind {A B} (m : run A) (f : A → run B) : run B :=
  match m with
  | (t, Ok a) => let '(t', r) := f a in (t ++ t', r)
  | (t, Throw e) => (t, Throw e)
  | (t, Stuck) => (t, Stuck)
  end.

(** [try { m } catch (ex) { handler(ex) }] *)
Definition catch {A} (m : run A) (handler : exn → run A) : run A :=
  match m with
  | (t, Throw ex) => let '(t', r) := handler ex in (t ++ t', r)
  | _ => m
  end.

(** One effect, and how it comes back. *)
Definition perform (e : effect) (outcome : option exn) : run unit :=
  ([e], match outcome with None => Ok tt | Some ex => Throw ex end).

Definition trace {A} (m : run A) : list effect := fst m.
Definition outcome {A} (m : run A) : result A := snd m.

End Run.

Notation "x ⇐ m ;; k" := (Run.bind m (λ x, k))
  (at level 100, m at next level, right associativity).

Section completion.
(** [JSON.parse], taken as given. *)
Variable JSON_parse : jsstring → result value.
Variable env : surroundings.

(** [if (callback) { callback(args) }] *)
Definition call_back (args : callback_args) : Run.run unit :=
  match callback env with
  | Some cb => Run.perform (Callback args) (cb args)
  | None => Run.pure (Ok tt)
  end.

(** The function passed to [common.loggly] (lines 195-212). *)
Definition on_response (res : response) (body : jsstring) : Run.run unit :=
  Run.catch
    (if truthy_string body
        && bool_decide (Number_toString (statusCode res) = js "200")
     then
       result ⇐ Run.pure (JSON_parse body);;
       _ ⇐ Run.perform (Emit "log" result) (log_listeners env result);;
       call_back (CbResult result)
     else
       Run.perform
         (ConsoleLog (js "Error Code- " ++ Number_toString (statusCode res)
                      ++ js " " ++ dq ++ statusMessage res ++ dq))
         None)
    (λ ex, call_back (CbError (js "Unspecified error from Loggly: " ++ exn_toString ex))).

End completion.

(** Heaps without dangling references: the values an object holds, and
    the values and heaps whose references are all allocated. *)
Definition object_values (o : object) : list value :=
  match o with
  | Obj props => props.*2
  | Arr elems => elems
  end.

Definition allocated (h : heap) (v : value) : Prop :=
  match v with
  | VObject l => is_Some (h !! l)
  | _ => True
  end.

Definition closed (h : heap) : Prop :=
  ∀ l o v, h !! l = Some o → v ∈ object_values o → allocated h v.

(** The tags of an optional [tags] value after the filter. *)
Definition resolve (o : option tag_input) : list jsstring :=
  match o with
  | Some t => tagFilter t
  | None => []
  end.

(** The destination before any tag is attached. *)
Definition base_uri (self : Loggly) : jsstring :=
  if isBulk self then url_bulk (urls self) else url_log (urls self).

(** The path segment that carries the tags. *)
Definition tag_segment (ts : list jsstring) : jsstring :=
  js "/tag/" ++ join (js ",") ts ++ js "/".

(** ** Sample inputs *)

Module Sample.

(** 600,000 times U+00E9, two bytes each in UTF-8. *)
Definition accented : jsstring := replicate (N.to_nat 600000) 233%N.

(** A million times the letter a. *)
Definition letters : jsstring := replicate (N.to_nat 1000000) 97%N.

Definition opts : options :=
  {| opt_subdomain := Some (js "acme");
     opt_token := Some (js "0123-abcd");
     opt_host := None;
     opt_json := false;
     opt_auth := None;
     opt_proxy := None;
     opt_useTagHeader := None;
     opt_isBulk := false;
     opt_bufferOptions := None;
     opt_networkErrorsOnConsole := false;
     opt_appName := None;
     opt_tags := None;
     opt_api := None |}.

Definition with_json (b : bool) (o : options) : options :=
  {| opt_subdomain := opt_subdomain o; opt_token := opt_token o;
     opt_host := opt_host o; opt_json := b; opt_auth := opt_auth o;
     opt_proxy := opt_proxy o; opt_useTagHeader := opt_useTagHeader o;
     opt_isBulk := opt_isBulk o; opt_bufferOptions := opt_bufferOptions o;
     opt_networkErrorsOnConsole := opt_networkErrorsOnConsole o;
     opt_appName := opt_appName o; opt_tags := opt_tags o; opt_api := opt_api o |}.

Definition with_isBulk (b : bool) (o : options) : options :=
  {| opt_subdomain := opt_subdomain o; opt_token := opt_token o;
     opt_host := opt_host o; opt_json := opt_json o; opt_auth := opt_auth o;
     opt_proxy := opt_proxy o; opt_useTagHeader := opt_useTagHeader o;
     opt_isBulk := b; opt_bufferOptions := opt_bufferOptions o;
     opt_networkErrorsOnConsole := opt_networkErrorsOnConsole o;
     opt_appName := opt_appName o; opt_tags := opt_tags o; opt_api := opt_api o |}.

Definition with_useTagHeader (b : bool) (o : options) : options :=
  {| opt_subdomain := opt_subdomain o; opt_token := opt_token o;
     opt_host := opt_host o; opt_json := opt_json o; opt_auth := opt_auth o;
     opt_proxy := opt_proxy o; opt_useTagHeader := Some b;
     opt_isBulk := opt_isBulk o; opt_bufferOptions := opt_bufferOptions o;
     opt_networkErrorsOnConsole := opt_networkErrorsOnConsole o;
     opt_appName := opt_appName o; opt_tags := opt_tags o; opt_api := opt_api o |}.

Definition with_tags (t : tag_input) (o : options) : options :=
  {| opt_subdomain := opt_subdomain o; opt_token := opt_token o;
     opt_host := opt_host o; opt_json := opt_json o; opt_auth := opt_auth o;
     opt_proxy := opt_proxy o; opt_useTagHeader := opt_useTagHeader o;
     opt_isBulk := opt_isBulk o; opt_bufferOptions := opt_bufferOptions o;
     opt_networkErrorsOnConsole := opt_networkErrorsOnConsole o;
     opt_appName := opt_appName o; opt_tags := Some t; opt_api := opt_api o |}.

(** The client of [createClient(o)], for options that have a subdomain
    and a token. *)
Definition client (o : options) : Loggly :=
  match new_Loggly (js "1.0.0") (Some o) with
  | Ok c => c
  | _ =>
      {| subdomain := []; token := []; host := []; json := false; auth := None;
         proxy := None; userAgent := []; useTagHeader := true; isBulk := false;
         bufferOptions := {| buf_size := 0; retriesInMilliSeconds := 0 |};
         networkErrorsOnConsole := false; appName := None; tags := None;
         urls := {| url_default := []; url_log := []; url_bulk := [];
                    url_api := [] |} |}
  end.

Definition json_client : Loggly := client (with_json true opts).
Definition plain_client : Loggly := client opts.
Definition bulk_client : Loggly := client (with_isBulk true opts).

Definition tagged_client : Loggly := client (with_tags (TagOne (js "Foo-1")) opts).
Definition path_tag_client : Loggly := client (with_useTagHeader false opts).

(** [log('hello', ['ok-1'])] on a client with the default tag [Foo-1]. *)
Definition tagged_request : logOptions :=
  request_for tagged_client (BodyValue (VString (js "hello")))
              (Some (TagMany [js "ok-1"])).

(** [var o = {}; o.self = o] *)
Definition cyclic : heap := {[ 1%positive := Obj [(js "self", VObject 1%positive)] ]}.

(** [{a: 'aaa...'}], a million letters. *)
Definition large_object : heap := {[ 1%positive := Obj [(js "a", VString letters)] ]}.

(** [['a', 'aaa...']], the second a million letters. *)
Definition large_array : heap :=
  {[ 1%positive := Arr [VString (js "a"); VString letters] ]}.

(** [['a', 'b']] *)
Definition two_messages : heap :=
  {[ 1%positive := Arr [VString (js "a"); VString (js "b")] ]}.

(** [{a: 1}] *)
Definition small_object : heap := {[ 1%positive := Obj [(js "a", VNumber 1)] ]}.

(** A stand-in for [common.serialize] where its answer does not matter. *)
Definition common_serialize (h : heap) (v : value) : result value :=
  Ok (VString (js "[object Object]")).

(** A stand-in for [JSON.parse] that knows three literals. *)
Definition JSON_parse (s : jsstring) : result value :=
  if bool_decide (s = js "null") then Ok VNull
  else if bool_decide (s = js "true") then Ok (VBoolean true)
  else if bool_decide (s = js "false") then Ok (VBoolean false)
  else Throw (Error (js "SyntaxError") (js "Unexpected token in JSON")).

(** A caller with a callback, and listeners that return. *)
Definition quiet : surroundings :=
  {| log_listeners := λ _, None; callback := Some (λ _, None) |}.

End Sample.

(** The encoding of [{message: msg}] for a [msg] that is not an object. *)
Definition primitive_text (msg : value) : option jsstring :=
  match msg with
  | VNull => Some (js "null")
  | VBoolean true => Some (js "true")
  | VBoolean false => Some (js "false")
  | VNumber n => Some (Number_toString n)
  | VString s => Some (QuoteJSONString s)
  | _ => None
  end.

Definition envelope (msg : value) : jsstring :=
  js "{"
  ++ join (js ",") (match primitive_text msg with
                    | Some s => [QuoteJSONString (js "message") ++ js ":" ++ s]
                    | None => []
                    end)
  ++ js "}".

(** ** The account calls *)

(** [Loggly.prototype.logglyUrl]: the arguments after the address of the
    API, joined by slashes. *)
Definition logglyUrl (self : Loggly) (args : list jsstring) : jsstring :=
  join (js "/") ([url_api (urls self)] ++ args).

(** The request of [Loggly.prototype.customer]. *)
Record customer_options := {
  customer_uri : jsstring;
  customer_auth : option (jsstring * jsstring)
}.

Definition customer_request (self : Loggly) : customer_options :=
  {| customer_uri := logglyUrl self [js "customer"];
     customer_auth := auth self |}.

(** What the callback of [customer] is called with: [callback(ex)] with
    the exception itself, or [callback(null, customer)]. *)
Inductive customer_args :=
  | CustomerError (ex : exn)
  | CustomerResult (customer : value).

(** Calling what is not a function. *)
Definition not_a_function : exn :=
  Error (js "TypeError") (js "callback is not a function").

(** [callback(args)], with no test that there is a callback: the calls
    made, and how the call comes back. *)
Definition customer_call (callback : option (customer_args → option exn))
    (args : customer_args) : list customer_args * result unit :=
  match callback with
  | Some cb => ([args], match cb args with None => Ok tt | Some ex => Throw ex end)
  | None => ([], Throw not_a_function)
  end.

(** The function [customer] passes to [common.loggly] (lines 252-257). *)
Definition customer_on_response (JSON_parse : jsstring → result value)
    (callback : option (customer_args → option exn))
    (res : response) (body : jsstring) : list customer_args * result unit :=
  match JSON_parse body with
  | Throw ex => customer_call callback (CustomerError ex)
  | Ok customer => customer_call callback (CustomerResult customer)
  | Stuck => ([], Stuck)
  end.

(** A missing option: absent, or the empty string. *)
Definition missing (o : option jsstring) : Prop := o = None ∨ o = Some [].

Definition required_error : exn :=
  Error (js "Error") (js "options.subdomain and options.token are required.").

(** More sample inputs. *)
Module Callers.

(** A callback that throws when it is given a result. *)
Definition rejects_results (args : callback_args) : option exn :=
  match args with
  | CbResult _ => Some (Error (js "Error") (js "boom"))
  | CbError _ => None
  end.

Definition with_callback (cb : callback_args → option exn) : surroundings :=
  {| log_listeners := λ _, None; callback := Some cb |}.

(** A callback that throws when it is given an error. *)
Definition rejects_errors (args : callback_args) : option exn :=
  match args with
  | CbResult _ => None
  | CbError _ => Some (Error (js "Error") (js "boom"))
  end.

(** Listeners that throw, and a caller with a callback. *)
Definition failing_listeners : surroundings :=
  {| log_listeners := λ _, Some (Error (js "Error") (js "listener"));
     callback := Some (λ _, None) |}.

(** A caller without a callback. *)
Definition no_callback : surroundings :=
  {| log_listeners := λ _, None; callback := None |}.

Definition ok_response : response := {| statusCode := 200; statusMessage := js "OK" |}.

End Callers.

(** ** Facts about strings *)

Section string_facts.
Implicit Types s t : jsstring.

Lemma byteLength_nonneg s : 0 <= byteLength s.
Proof.
  remember (length s) as n eqn:Hn.
  revert s Hn. induction (lt_wf n) as [n _ IH]. intros s ->.
  destruct s as [|c [|d rest]]; simpl; try lia.
  - repeat case_match; lia.
  - assert (H1 : 0 <= byteLength (d :: rest))
      by (eapply (IH (length (d :: rest))); [simpl; lia | reflexivity]).
    assert (H2 : 0 <= byteLength rest)
      by (eapply (IH (length rest)); [simpl; lia | reflexivity]).
    simpl in H1. repeat case_match; lia.
Qed.

Lemma byteLength_single_byte s :
  single_byte s → byteLength s = Z.of_nat (length s).
Proof.
  induction 1 as [|c s Hc _ IH]; [reflexivity|].
  cbn [byteLength length]. apply N.ltb_lt in Hc. rewrite Hc, IH. lia.
Qed.

Lemma single_byte_app s t : single_byte s → single_byte t → single_byte (s ++ t).
Proof. apply Forall_app_2. Qed.

Lemma single_byte_take n s : single_byte s → single_byte (take n s).
Proof. apply Forall_take. Qed.

Lemma single_byte_replicate n c : (c < 0x80)%N → single_byte (replicate n c).
Proof. intros Hc. apply Forall_replicate. exact Hc. Qed.

Lemma slice_prefix s (n : Z) :
  0 <= n → slice s 0 n = take (Z.to_nat n) s.
Proof.
  intros Hn. unfold slice.
  replace (0 <? 0) with false by reflexivity.
  replace (n <? 0) with false by (symmetry; apply Z.ltb_ge; lia).
  cbv zeta. rewrite (Z.min_l 0) by lia. rewrite Z.sub_0_r.
  change (Z.to_nat 0) with 0%nat.
  rewrite drop_0.
  destruct (Z.le_gt_cases n (Z.of_nat (length s))).
  - rewrite Z.min_l, Z.max_l by lia. reflexivity.
  - rewrite Z.min_r, Z.max_l by lia. rewrite Nat2Z.id.
    rewrite !take_ge by lia. reflexivity.
Qed.

Lemma slice_prefix_length s (n : Z) :
  0 <= n → Z.of_nat (length (slice s 0 n)) = Z.min n (Z.of_nat (length s)).
Proof.
  intros Hn. rewrite slice_prefix by assumption. rewrite length_take. lia.
Qed.

Lemma slice_all s (n : Z) :
  Z.of_nat (length s) <= n → slice s 0 n = s.
Proof.
  intros Hn. rewrite slice_prefix by lia. apply take_ge. lia.
Qed.

Lemma length_replicate_N (n : N) (c : code_unit) :
  Z.of_nat (length (replicate (N.to_nat n) c)) = Z.of_N n.
Proof. rewrite length_replicate. apply N_nat_Z. Qed.

End string_facts.

Lemma EVENT_SIZE_eq : EVENT_SIZE = 1000000.
Proof. reflexivity. Qed.

Lemma length_accented : Z.of_nat (length Sample.accented) = 600000.
Proof. unfold Sample.accented. rewrite length_replicate_N. reflexivity. Qed.

Lemma byteLength_replicate_two_bytes n (c : code_unit) :
  (0x80 <= c)%N → (c < 0x800)%N → byteLength (replicate n c) = 2 * Z.of_nat n.
Proof.
  intros Hlo Hhi. induction n as [|n IH]; [reflexivity|].
  cbn [replicate byteLength].
  rewrite (proj2 (N.ltb_ge c 0x80)) by exact Hlo.
  rewrite (proj2 (N.ltb_lt c 0x800)) by exact Hhi.
  rewrite IH. lia.
Qed.

Lemma byteLength_accented : byteLength Sample.accented = 1200000.
Proof.
  unfold Sample.accented. rewrite byteLength_replicate_two_bytes by lia.
  rewrite N_nat_Z. reflexivity.
Qed.

Lemma letters_single_byte : single_byte Sample.letters.
Proof. apply single_byte_replicate. reflexivity. Qed.

Lemma length_letters : Z.of_nat (length Sample.letters) = 1000000.
Proof. unfold Sample.letters. rewrite length_replicate_N. reflexivity. Qed.

Lemma byteLength_letters : byteLength Sample.letters = EVENT_SIZE.
Proof. rewrite byteLength_single_byte by exact letters_single_byte. exact length_letters. Qed.

Lemma quote_chars_unescaped (s : jsstring) :
  Forall (λ c, unescaped c = true) s → quote_chars s = s.
Proof.
  induction 1 as [|c s Hc _ IH]; [reflexivity|].
  unfold unescaped in Hc. rewrite !andb_true_iff, !negb_true_iff in Hc.
  destruct Hc as [[[Hlo Hhi] Hq] Hb].
  apply N.leb_le in Hlo. apply N.ltb_lt in Hhi.
  apply N.eqb_neq in Hq. apply N.eqb_neq in Hb.
  cbn [quote_chars]. unfold is_high_surrogate, is_low_surrogate.
  rewrite !(proj2 (N.eqb_neq c _)) by lia.
  rewrite (proj2 (N.ltb_ge c 32)) by lia.
  rewrite (proj2 (N.leb_gt 0xD800 c)) by lia.
  rewrite (proj2 (N.leb_gt 0xDC00 c)) by lia.
  cbn [andb]. rewrite IH. reflexivity.
Qed.

Lemma quote_chars_letters : quote_chars Sample.letters = Sample.letters.
Proof. apply quote_chars_unescaped, Forall_replicate. reflexivity. Qed.

Lemma single_byte_forallb (s : jsstring) :
  forallb (λ c, c <? 0x80)%N s = true → single_byte s.
Proof.
  intros Hall. apply Forall_forall. intros c Hc.
  rewrite forallb_forall in Hall. apply N.ltb_lt, Hall, list_elem_of_In, Hc.
Qed.

Lemma byteLength_app_single_byte (s t : jsstring) :
  single_byte s → single_byte t → byteLength (s ++ t) = byteLength s + byteLength t.
Proof.
  intros Hs Ht. rewrite !byteLength_single_byte by (try apply single_byte_app; assumption).
  rewrite length_app. lia.
Qed.

(** The byte length of a concatenation of literals and of the letters. *)
Ltac single_byte_tac :=
  repeat match goal with
         | |- single_byte Sample.letters => exact letters_single_byte
         | |- single_byte (_ ++ _) => apply single_byte_app
         | |- single_byte (js _) => apply single_byte_forallb; reflexivity
         | |- single_byte dq => apply single_byte_forallb; reflexivity
         end.

Ltac ascii_bytes :=
  repeat (rewrite byteLength_app_single_byte by single_byte_tac);
  rewrite ?byteLength_letters, ?EVENT_SIZE_eq;
  repeat match goal with
         | |- context [byteLength (js ?s)] =>
             let v := eval vm_compute in (byteLength (js s)) in
             change (byteLength (js s)) with v
         | |- context [byteLength dq] => change (byteLength dq) with 1
         end;
  lia.


(** A message within the limit is returned as it is, not flagged. *)
Lemma truncateLargeMessage_small m :
  byteLength m <= EVENT_SIZE →
  truncateLargeMessage m = {| message := m; isMessageTruncated := false |}.
Proof.
  intros H. unfold truncateLargeMessage.
  replace (byteLength m >? EVENT_SIZE) with false; [reflexivity|].
  symmetry. rewrite Z.gtb_ltb. apply Z.ltb_ge. exact H.
Qed.

(** An oversized message is cut to its first [EVENT_SIZE] code units. *)
Lemma truncateLargeMessage_large m :
  EVENT_SIZE < byteLength m →
  truncateLargeMessage m =
    {| message := take (Z.to_nat EVENT_SIZE) m; isMessageTruncated := true |}.
Proof.
  intros H. unfold truncateLargeMessage.
  replace (byteLength m >? EVENT_SIZE) with true
    by (symmetry; rewrite Z.gtb_ltb; apply Z.ltb_lt; exact H).
  rewrite slice_prefix by (rewrite EVENT_SIZE_eq; lia). reflexivity.
Qed.

(** For text of single-byte characters the cut lands on [EVENT_SIZE] bytes. *)
Lemma truncateLargeMessage_single_byte m :
  single_byte m → EVENT_SIZE < byteLength m →
  byteLength (message (truncateLargeMessage m)) = EVENT_SIZE.
Proof.
  intros Hsb H. rewrite truncateLargeMessage_large by assumption. cbn [message].
  rewrite byteLength_single_byte by (apply single_byte_take; assumption).
  rewrite byteLength_single_byte in H by assumption.
  rewrite length_take. rewrite EVENT_SIZE_eq in *. lia.
Qed.

(** ** The truncation step on multi-byte text *)

(** C1. The limit is compared with the byte length of the message but the
    cut is made by [slice], which counts UTF-16 code units: 600,000 times
    U+00E9 is 1,200,000 bytes, over the limit, and its first 1,000,000 code
    units are the whole message. The result is flagged as truncated and
    still has 1,200,000 bytes. *)
Theorem truncateLargeMessage_multibyte_overshoot :
  byteLength Sample.accented = 1200000
  ∧ truncateLargeMessage Sample.accented
    = {| message := Sample.accented; isMessageTruncated := true |}
  ∧ byteLength (message (truncateLargeMessage Sample.accented)) ≠ EVENT_SIZE.
Proof.
  pose proof byteLength_accented as Hlen.
  assert (Hcut : truncateLargeMessage Sample.accented
                 = {| message := Sample.accented; isMessageTruncated := true |}).
  { rewrite truncateLargeMessage_large by (rewrite Hlen, EVENT_SIZE_eq; lia).
    rewrite (take_ge Sample.accented (Z.to_nat EVENT_SIZE)); [reflexivity|].
    apply Nat2Z.inj_le. rewrite Z2Nat.id by (rewrite EVENT_SIZE_eq; lia).
    rewrite length_accented, EVENT_SIZE_eq. lia. }
  split; [exact Hlen|]. split; [exact Hcut|].
  rewrite Hcut. cbn [message]. rewrite Hlen, EVENT_SIZE_eq. lia.
Qed.

(** ** The tag filter *)

Section tag_facts.
Implicit Types tag : jsstring.

Lemma tagFilter_many ts : tagFilter (TagMany ts) = filter (λ tag, kept tag = true) ts.
Proof. reflexivity. Qed.

Lemma tagFilter_one tag : tagFilter (TagOne tag) = if kept tag then [tag] else [].
Proof.
  unfold tagFilter. cbn [filter list_filter]. fold (kept tag).
  destruct (kept tag); reflexivity.
Qed.

Lemma elem_of_tagFilter tag ts :
  tag ∈ tagFilter (TagMany ts) ↔ tag ∈ ts ∧ kept tag = true.
Proof. rewrite tagFilter_many, list_elem_of_filter. tauto. Qed.

Lemma tagFilter_sublist ts : tagFilter (TagMany ts) `sublist_of` ts.
Proof. rewrite tagFilter_many. apply sublist_filter. Qed.

(** Every tag that is valid in the words of the specification is kept. *)
Lemma spec_valid_tag_kept tag : spec_valid_tag tag = true → kept tag = true.
Proof.
  destruct tag as [|c [|d rest]]; unfold spec_valid_tag, kept, Regex.isSolid_test.
  - discriminate.
  - cbn [truthy_string]. rewrite andb_false_r. discriminate.
  - cbn [truthy_string forallb Regex.longest].
    rewrite !andb_true_iff. intros [[[Hc _] [Hd _]] Hlen].
    rewrite Hc, Hd. cbn [truthy_string]. auto.
Qed.

Lemma tagFilter_empty_one : tagFilter (TagOne []) = [].
Proof. reflexivity. Qed.

End tag_facts.

(** C3. The pattern is anchored at the start of the tag only, so a tag
    passes as soon as its first two characters are right: the tag
    [bad tag!], which the specification's whole-string pattern refuses,
    is kept. *)
Theorem tagFilter_keeps_bad_tag :
  tagFilter (TagMany [js "ok-1"; js "bad tag!"]) = [js "ok-1"; js "bad tag!"]
  ∧ spec_valid_tag (js "bad tag!") = false
  ∧ filter (λ tag, spec_valid_tag tag = true) [js "ok-1"; js "bad tag!"] = [js "ok-1"].
Proof. repeat split; vm_compute; reflexivity. Qed.

(** ** Serialisation *)

Section json_facts.
Implicit Types (h : heap) (msg v : value).

Lemma SerializeJSONProperty_primitive on_cycle fuel h stack msg :
  instanceof_Object msg = false →
  SerializeJSONProperty on_cycle fuel h stack msg = Ok (primitive_text msg).
Proof.
  destruct msg as [| |[]| | | |]; intros Hmsg;
    try discriminate Hmsg; destruct fuel; reflexivity.
Qed.

Lemma alloc_fresh h o : h !! (alloc h o).1 = None.
Proof. apply not_elem_of_dom, is_fresh. Qed.

(** [JSON.stringify({message: msg})] for a [msg] that is not an object. *)
Lemma stringify_envelope h msg :
  instanceof_Object msg = false →
  stringify (alloc h (Obj [(js "message", msg)])).2
            (VObject (alloc h (Obj [(js "message", msg)])).1)
  = Ok (Some (envelope msg)).
Proof.
  intros Hmsg. pose proof (alloc_fresh h (Obj [(js "message", msg)])) as Hfresh.
  unfold alloc in *. cbn [fst snd] in *. set (l := fresh (dom h)) in *.
  unfold stringify, JSON.stringify.
  rewrite map_size_insert_None by exact Hfresh.
  cbn [SerializeJSONProperty]. rewrite bool_decide_eq_false_2 by apply not_elem_of_nil.
  rewrite lookup_insert_eq. cbn [object_members].
  rewrite SerializeJSONProperty_primitive by exact Hmsg.
  unfold envelope. destruct (primitive_text msg); reflexivity.
Qed.

(** The sibling helper [stringify] does recover from a cycle. *)
Lemma stringify_cyclic_recovers :
  stringify Sample.cyclic (VObject 1%positive) = Ok (Some (js "{}")).
Proof. vm_compute. reflexivity. Qed.

Lemma JSON_stringify_cyclic :
  JSON.stringify Sample.cyclic (VObject 1%positive) = Throw circular_structure.
Proof. vm_compute. reflexivity. Qed.

Lemma JSON_stringify_small_object :
  JSON.stringify Sample.small_object (VObject 1%positive)
  = Ok (Some (js "{" ++ dq ++ js "a" ++ dq ++ js ":1}")).
Proof. vm_compute. reflexivity. Qed.

End json_facts.

(** An exception of the bare [JSON.stringify] of line 121 leaves [log]. *)
Lemma log_object_stringify_throws common_serialize self h l ex call_tags :
  JSON.stringify h (VObject l) = Throw ex →
  log common_serialize self h (VObject l) call_tags = Throw ex.
Proof. intros Hs. unfold log, truncate_msg. cbn [typeof]. rewrite Hs. reflexivity. Qed.

(** C4. [log] serialises an object message with a bare [JSON.stringify]
    (line 121) before it ever reaches the helper [stringify] that has the
    fallback: on [var o = {}; o.self = o] the call throws the [TypeError]
    of the circular structure, whatever the client and the tags. *)
Theorem log_cyclic_message_throws common_serialize self call_tags :
  log common_serialize self Sample.cyclic (VObject 1%positive) call_tags
  = Throw circular_structure.
Proof. apply log_object_stringify_throws, JSON_stringify_cyclic. Qed.

(** ** The pieces of [log] *)

Section log_facts.
Variable common_serialize : heap → value → result value.
Variable self : Loggly.
Variable h : heap.
Implicit Types (msg v : value) (m text : jsstring).

Lemma mapM_Ok {A B} (f : A → result B) (l : list A) (bs : list B) :
  mapM f l = Ok bs ↔ Forall2 (λ a b, f a = Ok b) l bs.
Proof.
  revert bs. induction l as [|a l IH]; intros bs; cbn.
  - split; [intros [= <-]; constructor | intros Hnil; inversion Hnil; reflexivity].
  - split.
    + destruct (f a) as [b| |] eqn:Hfa; cbn; try discriminate.
      destruct (mapM f l) as [bs'| |] eqn:Hl; cbn; try discriminate.
      intros [= <-]. constructor; [exact Hfa | apply IH; reflexivity].
    + intros Hall. inversion Hall as [|? b ? bs' Hfa Hrest]; subst.
      rewrite Hfa. cbn. apply IH in Hrest. rewrite Hrest. reflexivity.
Qed.

(** The truncation step never rejects a text message. *)
Lemma truncate_msg_text m :
  truncate_msg h (VString m) = Ok (VString (message (truncateLargeMessage m))).
Proof.
  cbn. unfold truncateLargeMessage.
  destruct (byteLength m >? EVENT_SIZE); reflexivity.
Qed.

Lemma truncate_msg_object_small l text :
  JSON.stringify h (VObject l) = Ok (Some text) →
  byteLength text <= EVENT_SIZE →
  truncate_msg h (VObject l) = Ok (VObject l).
Proof.
  intros Hs Hlen. unfold truncate_msg. cbn [typeof]. rewrite Hs. cbn.
  rewrite truncateLargeMessage_small by exact Hlen. reflexivity.
Qed.

Lemma truncate_msg_object_large l text :
  JSON.stringify h (VObject l) = Ok (Some text) →
  EVENT_SIZE < byteLength text →
  truncate_msg h (VObject l) = Ok (VString (take (Z.to_nat EVENT_SIZE) text)).
Proof.
  intros Hs Hlen. unfold truncate_msg. cbn [typeof]. rewrite Hs. cbn.
  rewrite truncateLargeMessage_large by exact Hlen. reflexivity.
Qed.

Lemma serialize_json_primitive msg :
  json self = true → instanceof_Object msg = false →
  serialize common_serialize self h msg = Ok (VString (envelope msg)).
Proof.
  intros Hjson Hmsg. unfold serialize. rewrite Hmsg, Hjson.
  pose proof (stringify_envelope h msg Hmsg) as Henv.
  destruct (alloc h (Obj [(js "message", msg)])) as [l h'].
  cbn [fst snd] in Henv. rewrite Henv. reflexivity.
Qed.

Lemma serialize_plain_primitive msg :
  json self = false → instanceof_Object msg = false →
  serialize common_serialize self h msg = Ok msg.
Proof. intros Hjson Hmsg. unfold serialize. rewrite Hmsg, Hjson. reflexivity. Qed.

Lemma serialize_json_object l text :
  json self = true → JSON.stringify h (VObject l) = Ok (Some text) →
  serialize common_serialize self h (VObject l) = Ok (VString text).
Proof.
  intros Hjson Hs. unfold serialize, stringify. cbn [instanceof_Object].
  rewrite Hjson, Hs. reflexivity.
Qed.

(** A text is never dispatched as a bulk array. *)
Lemma log_text m call_tags :
  log common_serialize self h (VString m) call_tags
  = (b ← serialize common_serialize self h (VString (message (truncateLargeMessage m)));
     Ok (request_for self (BodyValue b) call_tags)).
Proof.
  unfold log. rewrite truncate_msg_text. cbn [mbind result_bind as_array].
  destruct (isBulk self);
    destruct (serialize _ _ _ _); reflexivity.
Qed.

Lemma body_request_for b call_tags : body (request_for self b call_tags) = b.
Proof.
  unfold request_for. cbv zeta.
  destruct (merge_tags self call_tags) as [[|t ts]|], (useTagHeader self),
    (appName self); reflexivity.
Qed.

Lemma method_request_for b call_tags :
  method (request_for self b call_tags) = js "POST".
Proof.
  unfold request_for. cbv zeta.
  destruct (merge_tags self call_tags) as [[|t ts]|], (useTagHeader self),
    (appName self); reflexivity.
Qed.

End log_facts.

(** ** The size of the body *)

(** An object within the limit goes to the serialisation as it is. *)
Lemma log_object_small common_serialize self h l text call_tags :
  JSON.stringify h (VObject l) = Ok (Some text) →
  byteLength text <= EVENT_SIZE →
  isBulk self = false ∨ as_array h (VObject l) = None →
  log common_serialize self h (VObject l) call_tags
  = (b ← serialize common_serialize self h (VObject l);
     Ok (request_for self (BodyValue b) call_tags)).
Proof.
  intros Hs Hlen Hbulk. unfold log.
  rewrite (truncate_msg_object_small h l text Hs Hlen).
  cbn [mbind result_bind].
  replace (if isBulk self then as_array h (VObject l) else None)
    with (@None (list value))
    by (destruct Hbulk as [-> | ->]; [|destruct (isBulk self)]; reflexivity).
  destruct (serialize _ _ _ _); reflexivity.
Qed.

Lemma envelope_text (text : jsstring) :
  envelope (VString text)
  = js "{" ++ dq ++ js "message" ++ dq ++ js ":" ++ dq ++ quote_chars text ++ dq ++ js "}".
Proof.
  unfold envelope. cbn [primitive_text join]. unfold QuoteJSONString.
  rewrite <- !app_assoc. reflexivity.
Qed.

Lemma byteLength_envelope_letters :
  byteLength (envelope (VString Sample.letters)) = 1000014.
Proof. rewrite envelope_text, quote_chars_letters. ascii_bytes. Qed.

(** C2, as stated, fails: in json mode the envelope is put around the text
    after the truncation step. A million letters are within the limit, and
    the body handed over has 1,000,014 bytes. *)
Lemma log_json_text_over_limit :
  byteLength Sample.letters = EVENT_SIZE
  ∧ body <$> log Sample.common_serialize Sample.json_client ∅
               (VString Sample.letters) None
    = Ok (BodyValue (VString (envelope (VString Sample.letters))))
  ∧ EVENT_SIZE < byteLength (envelope (VString Sample.letters)).
Proof.
  split; [exact byteLength_letters|]. split.
  - rewrite log_text.
    rewrite truncateLargeMessage_small by (rewrite byteLength_letters; lia).
    cbn [message]. rewrite serialize_json_primitive by reflexivity.
    cbn [mbind result_bind fmap result_fmap]. rewrite body_request_for. reflexivity.
  - rewrite byteLength_envelope_letters, EVENT_SIZE_eq. lia.
Qed.

(** C2, amended. The body stays within [EVENT_SIZE] bytes where nothing is
    added after the truncation step. For a text message in plain mode
    that is within the limit or made of single-byte characters, the body
    is a prefix of the message: the message itself, not flagged, when it
    is within the limit, and otherwise its cut to exactly [EVENT_SIZE]
    bytes, flagged and not rejected. For an object message in json mode
    whose encoding is within the limit the body is that encoding. *)
Theorem log_body_within_limit common_serialize self h call_tags :
  (∀ m, json self = false →
        byteLength m <= EVENT_SIZE ∨ single_byte m →
        ∃ req, log common_serialize self h (VString m) call_tags = Ok req
               ∧ body req = BodyValue (VString (message (truncateLargeMessage m)))
               ∧ message (truncateLargeMessage m) `prefix_of` m
               ∧ byteLength (message (truncateLargeMessage m)) <= EVENT_SIZE
               ∧ isMessageTruncated (truncateLargeMessage m)
                 = bool_decide (EVENT_SIZE < byteLength m)
               ∧ (byteLength m <= EVENT_SIZE → message (truncateLargeMessage m) = m)
               ∧ (EVENT_SIZE < byteLength m →
                  byteLength (message (truncateLargeMessage m)) = EVENT_SIZE))
  ∧ (∀ l text, json self = true →
        isBulk self = false ∨ as_array h (VObject l) = None →
        JSON.stringify h (VObject l) = Ok (Some text) →
        byteLength text <= EVENT_SIZE →
        ∃ req, log common_serialize self h (VObject l) call_tags = Ok req
               ∧ body req = BodyValue (VString text)
               ∧ byteLength text <= EVENT_SIZE).
Proof.
  split.
  - intros m Hplain Hm. eexists. split; [|split; [apply body_request_for|]].
    + rewrite log_text, serialize_plain_primitive by done. reflexivity.
    + destruct (Z.le_gt_cases (byteLength m) EVENT_SIZE) as [Hle|Hgt].
      * rewrite truncateLargeMessage_small by exact Hle. cbn [message isMessageTruncated].
        split; [reflexivity|]. split; [exact Hle|]. split.
        -- symmetry. apply bool_decide_eq_false_2. lia.
        -- split; [reflexivity | lia].
      * destruct Hm as [Hle|Hsb]; [lia|].
        pose proof (truncateLargeMessage_single_byte m Hsb Hgt) as Hcut.
        rewrite truncateLargeMessage_large in * by exact Hgt.
        cbn [message isMessageTruncated] in *.
        split; [apply prefix_take|]. split; [lia|]. split.
        -- symmetry. apply bool_decide_eq_true_2. exact Hgt.
        -- split; [lia | intros _; exact Hcut].
  - intros l text Hjson Hbulk Hs Hlen. eexists.
    split; [|split; [apply body_request_for | exact Hlen]].
    rewrite (log_object_small _ _ _ _ _ _ Hs Hlen Hbulk).
    rewrite (serialize_json_object common_serialize self h l text Hjson Hs).
    reflexivity.
Qed.

Lemma letters_and_one_over_limit : EVENT_SIZE < byteLength (Sample.letters ++ js "b").
Proof. rewrite EVENT_SIZE_eq. ascii_bytes. Qed.

Lemma log_body_within_limit_witness :
  (∃ req, log Sample.common_serialize Sample.plain_client ∅
              (VString (js "hello")) None = Ok req
          ∧ body req = BodyValue (VString (js "hello")))
  ∧ (∃ req, log Sample.common_serialize Sample.plain_client ∅
                (VString (Sample.letters ++ js "b")) None = Ok req
            ∧ body req = BodyValue (VString
                (message (truncateLargeMessage (Sample.letters ++ js "b"))))
            ∧ message (truncateLargeMessage (Sample.letters ++ js "b"))
              `prefix_of` Sample.letters ++ js "b"
            ∧ byteLength (message (truncateLargeMessage (Sample.letters ++ js "b")))
              = EVENT_SIZE
            ∧ isMessageTruncated (truncateLargeMessage (Sample.letters ++ js "b"))
              = true)
  ∧ (∃ req, log Sample.common_serialize Sample.json_client Sample.small_object
                (VObject 1%positive) None = Ok req
            ∧ body req = BodyValue (VString (js "{" ++ dq ++ js "a" ++ dq ++ js ":1}"))
            ∧ byteLength (js "{" ++ dq ++ js "a" ++ dq ++ js ":1}") <= EVENT_SIZE).
Proof.
  split; [|split].
  - destruct (proj1 (log_body_within_limit Sample.common_serialize Sample.plain_client
                       ∅ None) (js "hello"))
      as (req & Hlog & Hbody & _ & _ & _ & Hsame & _).
    + reflexivity.
    + left. vm_compute. discriminate.
    + exists req. split; [exact Hlog|]. rewrite Hbody, Hsame; [reflexivity|].
      vm_compute. discriminate.
  - destruct (proj1 (log_body_within_limit Sample.common_serialize Sample.plain_client
                       ∅ None) (Sample.letters ++ js "b"))
      as (req & Hlog & Hbody & Hprefix & _ & Hflag & _ & Hcut).
    + reflexivity.
    + right. single_byte_tac.
    + exists req. split; [exact Hlog|]. split; [exact Hbody|].
      split; [exact Hprefix|]. split; [exact (Hcut letters_and_one_over_limit)|].
      rewrite Hflag. apply bool_decide_eq_true_2, letters_and_one_over_limit.
  - apply (proj2 (log_body_within_limit Sample.common_serialize Sample.json_client
                    Sample.small_object None) 1%positive).
    + reflexivity.
    + left. reflexivity.
    + vm_compute. reflexivity.
    + vm_compute. discriminate.
Defined.

(** ** The shape of the body *)

Lemma JSON_stringify_large_object :
  JSON.stringify Sample.large_object (VObject 1%positive)
  = Ok (Some (js "{" ++ dq ++ js "a" ++ dq ++ js ":" ++ dq ++ Sample.letters
              ++ dq ++ js "}")).
Proof.
  unfold JSON.stringify, Sample.large_object. rewrite map_size_singleton.
  cbn [SerializeJSONProperty]. rewrite bool_decide_eq_false_2 by apply not_elem_of_nil.
  rewrite lookup_singleton_eq. cbn [object_members SerializeJSONProperty].
  unfold QuoteJSONString. rewrite quote_chars_letters.
  change (quote_chars (js "a")) with (js "a").
  cbn [mbind result_bind join]. rewrite <- !app_assoc. reflexivity.
Qed.

Lemma large_object_over_limit :
  EVENT_SIZE < byteLength (js "{" ++ dq ++ js "a" ++ dq ++ js ":" ++ dq
                           ++ Sample.letters ++ dq ++ js "}").
Proof. rewrite EVENT_SIZE_eq. ascii_bytes. Qed.

(** The truncation step turns an oversized object into text, and the text
    is then serialised as any other text. *)
Lemma log_object_large common_serialize self h l text call_tags :
  JSON.stringify h (VObject l) = Ok (Some text) →
  EVENT_SIZE < byteLength text →
  log common_serialize self h (VObject l) call_tags
  = (b ← serialize common_serialize self h (VString (take (Z.to_nat EVENT_SIZE) text));
     Ok (request_for self (BodyValue b) call_tags)).
Proof.
  intros Hs Hlen. unfold log.
  rewrite (truncate_msg_object_large h l text Hs Hlen).
  cbn [mbind result_bind as_array].
  destruct (isBulk self); destruct (serialize _ _ _ _); reflexivity.
Qed.

(** C5, as stated, fails: an object whose encoding is over the limit is
    replaced by the cut text of its encoding, and in json mode that text is
    wrapped in the envelope like any other text. *)
Lemma log_rewraps_truncated_object :
  ∃ text,
    JSON.stringify Sample.large_object (VObject 1%positive) = Ok (Some text)
    ∧ body <$> log Sample.common_serialize Sample.json_client Sample.large_object
                 (VObject 1%positive) None
      = Ok (BodyValue (VString (envelope (VString (take (Z.to_nat EVENT_SIZE) text)))))
    ∧ envelope (VString (take (Z.to_nat EVENT_SIZE) text)) ≠ text.
Proof.
  pose proof large_object_over_limit as Hlen.
  eexists. split; [exact JSON_stringify_large_object|]. split.
  - rewrite (log_object_large Sample.common_serialize Sample.json_client _ _ _ None
               JSON_stringify_large_object Hlen).
    rewrite (serialize_json_primitive Sample.common_serialize Sample.json_client)
      by reflexivity.
    cbn [mbind result_bind fmap result_fmap]. rewrite body_request_for. reflexivity.
  - intros Heq. apply (f_equal (take 3)) in Heq.
    rewrite envelope_text in Heq. discriminate Heq.
Qed.

(** C5, amended. In json mode the body is the encoding of
    [{message: text}] when the message that reaches the serialisation is a
    text: the text message after the truncation step, or the cut encoding
    of an object message whose encoding is over the limit. It is the
    encoding of the object as it is when the object's encoding is within
    the limit (and the object is not an array sent in bulk mode). In plain
    mode the text, after the truncation step, is the body. *)
Theorem log_body_shape common_serialize self h call_tags :
  (∀ m, json self = true →
        ∃ req, log common_serialize self h (VString m) call_tags = Ok req
               ∧ body req = BodyValue (VString
                   (envelope (VString (message (truncateLargeMessage m))))))
  ∧ (∀ m, json self = false →
        ∃ req, log common_serialize self h (VString m) call_tags = Ok req
               ∧ body req = BodyValue (VString (message (truncateLargeMessage m))))
  ∧ (∀ l text, json self = true →
        JSON.stringify h (VObject l) = Ok (Some text) →
        byteLength text <= EVENT_SIZE →
        isBulk self = false ∨ as_array h (VObject l) = None →
        ∃ req, log common_serialize self h (VObject l) call_tags = Ok req
               ∧ body req = BodyValue (VString text))
  ∧ (∀ l text, json self = true →
        JSON.stringify h (VObject l) = Ok (Some text) →
        EVENT_SIZE < byteLength text →
        ∃ req, log common_serialize self h (VObject l) call_tags = Ok req
               ∧ body req = BodyValue (VString
                   (envelope (VString (message (truncateLargeMessage text)))))).
Proof.
  repeat split.
  - intros m Hjson. eexists. split; [|apply body_request_for].
    rewrite log_text, serialize_json_primitive by done. reflexivity.
  - intros m Hplain. eexists. split; [|apply body_request_for].
    rewrite log_text, serialize_plain_primitive by done. reflexivity.
  - intros l text Hjson Hs Hlen Hbulk. eexists. split; [|apply body_request_for].
    rewrite (log_object_small _ _ _ _ _ _ Hs Hlen Hbulk).
    rewrite (serialize_json_object common_serialize self h l text Hjson Hs).
    reflexivity.
  - intros l text Hjson Hs Hlen. eexists. split; [|apply body_request_for].
    rewrite (log_object_large _ _ _ _ _ _ Hs Hlen).
    rewrite serialize_json_primitive by done.
    rewrite (truncateLargeMessage_large text Hlen). reflexivity.
Qed.

Lemma log_body_shape_witness :
  (∃ req, log Sample.common_serialize Sample.json_client ∅ (VString (js "hello")) None
          = Ok req
          ∧ body req = BodyValue (VString
              (envelope (VString (message (truncateLargeMessage (js "hello")))))))
  ∧ (∃ req, log Sample.common_serialize Sample.plain_client ∅ (VString (js "hello")) None
            = Ok req
            ∧ body req = BodyValue (VString (message (truncateLargeMessage (js "hello")))))
  ∧ (∃ req, log Sample.common_serialize Sample.json_client Sample.small_object
                (VObject 1%positive) None = Ok req
            ∧ body req = BodyValue (VString (js "{" ++ dq ++ js "a" ++ dq ++ js ":1}")))
  ∧ (∃ req, log Sample.common_serialize Sample.json_client Sample.large_object
                (VObject 1%positive) None = Ok req
            ∧ body req = BodyValue (VString (envelope (VString
                (message (truncateLargeMessage
                   (js "{" ++ dq ++ js "a" ++ dq ++ js ":" ++ dq ++ Sample.letters
                    ++ dq ++ js "}"))))))).
Proof.
  split; [|split; [|split]].
  - apply (proj1 (log_body_shape Sample.common_serialize Sample.json_client ∅ None)
             (js "hello")).
    reflexivity.
  - apply (proj1 (proj2 (log_body_shape Sample.common_serialize Sample.plain_client
                           ∅ None)) (js "hello")).
    reflexivity.
  - apply (proj1 (proj2 (proj2 (log_body_shape Sample.common_serialize
                                  Sample.json_client Sample.small_object None)))
             1%positive).
    + reflexivity.
    + vm_compute. reflexivity.
    + vm_compute. discriminate.
    + left. reflexivity.
  - apply (proj2 (proj2 (proj2 (log_body_shape Sample.common_serialize
                                  Sample.json_client Sample.large_object None)))
             1%positive).
    + reflexivity.
    + exact JSON_stringify_large_object.
    + exact large_object_over_limit.
Defined.

(** ** Bulk mode *)

Lemma JSON_stringify_large_array :
  JSON.stringify Sample.large_array (VObject 1%positive)
  = Ok (Some (js "[" ++ dq ++ js "a" ++ dq ++ js "," ++ dq ++ Sample.letters
              ++ dq ++ js "]")).
Proof.
  unfold JSON.stringify, Sample.large_array. rewrite map_size_singleton.
  cbn [SerializeJSONProperty]. rewrite bool_decide_eq_false_2 by apply not_elem_of_nil.
  rewrite lookup_singleton_eq. cbn [array_elements SerializeJSONProperty].
  unfold QuoteJSONString. rewrite quote_chars_letters.
  change (quote_chars (js "a")) with (js "a").
  cbn [mbind result_bind join default from_option id]. rewrite <- !app_assoc.
  reflexivity.
Qed.

Lemma large_array_over_limit :
  EVENT_SIZE < byteLength (js "[" ++ dq ++ js "a" ++ dq ++ js "," ++ dq
                           ++ Sample.letters ++ dq ++ js "]").
Proof. rewrite EVENT_SIZE_eq. ascii_bytes. Qed.

(** An array within the limit, in bulk mode, is serialised element by
    element. *)
Lemma log_bulk_array_small common_serialize self h l elems text call_tags :
  isBulk self = true →
  h !! l = Some (Arr elems) →
  JSON.stringify h (VObject l) = Ok (Some text) →
  byteLength text <= EVENT_SIZE →
  log common_serialize self h (VObject l) call_tags
  = (bodies ← mapM (serialize common_serialize self h) elems;
     Ok (request_for self (BodyArray bodies) call_tags)).
Proof.
  intros Hbulk Hl Hs Hlen. unfold log.
  rewrite (truncate_msg_object_small h l text Hs Hlen).
  cbn [mbind result_bind as_array]. rewrite Hbulk, Hl.
  destruct (mapM _ elems); reflexivity.
Qed.

Lemma mapM_serialize_plain common_serialize self h elems :
  json self = false → Forall (λ m, instanceof_Object m = false) elems →
  mapM (serialize common_serialize self h) elems = Ok elems.
Proof.
  intros Hplain Hall. apply mapM_Ok.
  induction Hall as [|m elems Hm _ IH]; constructor; [|exact IH].
  apply serialize_plain_primitive; assumption.
Qed.

Lemma mapM_serialize_json common_serialize self h elems :
  json self = true → Forall (λ m, instanceof_Object m = false) elems →
  mapM (serialize common_serialize self h) elems
  = Ok ((λ m, VString (envelope m)) <$> elems).
Proof.
  intros Hjson Hall. apply mapM_Ok.
  induction Hall as [|m elems Hm _ IH]; constructor; [|exact IH].
  apply serialize_json_primitive; assumption.
Qed.

(** C6. In bulk mode [log] measures the encoding of the whole array
    (lines 120-123) before it maps [serialize] over the elements (line
    149). The array of the letter a and of a million letters has two
    elements that are each within the limit, and serialising them one by
    one gives the two bodies in order; but the encoding of the array is
    over the limit, so the array is replaced by one cut text, line 149
    no longer sees an array, and the body is that one text and not the
    sequence of the two messages. *)
Theorem log_bulk_oversized_array_is_one_text :
  ∃ text,
    as_array Sample.large_array (VObject 1%positive)
    = Some [VString (js "a"); VString Sample.letters]
    ∧ byteLength (js "a") <= EVENT_SIZE
    ∧ byteLength Sample.letters <= EVENT_SIZE
    ∧ mapM (serialize Sample.common_serialize Sample.bulk_client Sample.large_array)
           [VString (js "a"); VString Sample.letters]
      = Ok [VString (js "a"); VString Sample.letters]
    ∧ JSON.stringify Sample.large_array (VObject 1%positive) = Ok (Some text)
    ∧ EVENT_SIZE < byteLength text
    ∧ body <$> log Sample.common_serialize Sample.bulk_client Sample.large_array
                 (VObject 1%positive) None
      = Ok (BodyValue (VString (take (Z.to_nat EVENT_SIZE) text))).
Proof.
  pose proof large_array_over_limit as Hlen.
  eexists. split; [reflexivity|].
  split; [rewrite EVENT_SIZE_eq; vm_compute; discriminate|].
  split; [rewrite byteLength_letters; lia|].
  split; [apply mapM_serialize_plain; [reflexivity | repeat constructor]|].
  split; [exact JSON_stringify_large_array|]. split; [exact Hlen|].
  rewrite (log_object_large Sample.common_serialize Sample.bulk_client _ _ _ None
             JSON_stringify_large_array Hlen).
  rewrite (serialize_plain_primitive Sample.common_serialize Sample.bulk_client)
    by reflexivity.
  cbn [mbind result_bind fmap result_fmap]. rewrite body_request_for. reflexivity.
Qed.

(** X17. In bulk mode, for an array of messages whose encoding as a whole
    is within the limit, the body is the sequence of the serialisations
    of the elements, one for each element and in the order of the input.
    Text elements are the body as they are in plain mode, and each in its
    envelope in json mode. *)
Theorem log_bulk_array common_serialize self h l elems text call_tags :
  isBulk self = true →
  h !! l = Some (Arr elems) →
  JSON.stringify h (VObject l) = Ok (Some text) →
  byteLength text <= EVENT_SIZE →
  (∀ req, log common_serialize self h (VObject l) call_tags = Ok req
          ↔ ∃ bodies, Forall2 (λ m b, serialize common_serialize self h m = Ok b)
                              elems bodies
                      ∧ req = request_for self (BodyArray bodies) call_tags)
  ∧ (json self = false → Forall (λ m, instanceof_Object m = false) elems →
     log common_serialize self h (VObject l) call_tags
     = Ok (request_for self (BodyArray elems) call_tags))
  ∧ (json self = true → Forall (λ m, instanceof_Object m = false) elems →
     log common_serialize self h (VObject l) call_tags
     = Ok (request_for self (BodyArray ((λ m, VString (envelope m)) <$> elems))
                       call_tags)).
Proof.
  intros Hbulk Hl Hs Hlen.
  rewrite (log_bulk_array_small _ _ _ _ _ _ _ Hbulk Hl Hs Hlen).
  split; [|split].
  - intros req. split.
    + destruct (mapM _ elems) as [bodies| |] eqn:Hmap; cbn; try discriminate.
      intros [= <-]. exists bodies. split; [apply mapM_Ok, Hmap | reflexivity].
    + intros (bodies & Hall & ->). apply mapM_Ok in Hall. rewrite Hall. reflexivity.
  - intros Hplain Hall. rewrite mapM_serialize_plain by assumption. reflexivity.
  - intros Hjson Hall. rewrite mapM_serialize_json by assumption. reflexivity.
Qed.

Lemma log_bulk_array_witness :
  log Sample.common_serialize Sample.bulk_client Sample.two_messages
      (VObject 1%positive) None
  = Ok (request_for Sample.bulk_client
          (BodyArray [VString (js "a"); VString (js "b")]) None).
Proof.
  refine (proj1 (proj2 (log_bulk_array Sample.common_serialize Sample.bulk_client
                          Sample.two_messages 1%positive
                          [VString (js "a"); VString (js "b")]
                          (js "[" ++ dq ++ js "a" ++ dq ++ js "," ++ dq ++ js "b" ++ dq
                           ++ js "]") None _ _ _ _)) _ _).
  - reflexivity.
  - reflexivity.
  - vm_compute. reflexivity.
  - vm_compute. discriminate.
  - reflexivity.
  - repeat constructor.
Defined.

(** ** The request *)

Section request_facts.
Variable self : Loggly.
Implicit Types (b : body_t) (call_tags : option tag_input).

(** The merged tags are the client's followed by those of the call. *)
Lemma merge_tags_resolve call_tags :
  default [] (merge_tags self call_tags) = default [] (tags self) ++ resolve call_tags.
Proof.
  unfold merge_tags, resolve.
  destruct call_tags as [[[|c tag]|ts]|]; cbn [truthy_tags truthy_string].
  - rewrite tagFilter_empty_one, app_nil_r. reflexivity.
  - destruct (tags self); reflexivity.
  - destruct (tags self); reflexivity.
  - rewrite app_nil_r. reflexivity.
Qed.

Lemma uri_request_for b call_tags :
  uri (request_for self b call_tags)
  = match default [] (merge_tags self call_tags) with
    | [] => base_uri self
    | t :: ts => if useTagHeader self then base_uri self
                 else base_uri self ++ tag_segment (t :: ts)
    end.
Proof.
  unfold request_for. cbv zeta.
  destruct (merge_tags self call_tags) as [[|t ts]|], (useTagHeader self),
    (appName self); reflexivity.
Qed.

Lemma tag_header_request_for b call_tags :
  headers (request_for self b call_tags) !! "X-LOGGLY-TAG"
  = match default [] (merge_tags self call_tags) with
    | [] => None
    | t :: ts => if useTagHeader self then Some (join (js ",") (t :: ts)) else None
    end.
Proof.
  unfold request_for. cbv zeta.
  destruct (merge_tags self call_tags) as [[|t ts]|], (useTagHeader self),
    (appName self); cbn; by simplify_map_eq.
Qed.

Lemma content_type_request_for b call_tags :
  headers (request_for self b call_tags) !! "content-type"
  = Some (if json self then js "application/json" else js "text/plain").
Proof.
  unfold request_for. cbv zeta.
  destruct (merge_tags self call_tags) as [[|t ts]|], (useTagHeader self),
    (appName self); cbn; by simplify_map_eq.
Qed.

(** Whatever [log] hands over was built by [request_for]. *)
Lemma log_request_for common_serialize h msg call_tags req :
  log common_serialize self h msg call_tags = Ok req →
  req = request_for self (body req) call_tags.
Proof.
  unfold log. destruct (truncate_msg h msg) as [msg'| |]; cbn; try discriminate.
  destruct (if isBulk self then as_array h msg' else None) as [elems|].
  - destruct (mapM _ elems); cbn; try discriminate.
    intros [= <-]. rewrite body_request_for. reflexivity.
  - destruct (serialize _ _ _ _); cbn; try discriminate.
    intros [= <-]. rewrite body_request_for. reflexivity.
Qed.

End request_facts.

Section constructor_facts.
Variables (version : jsstring) (opts : options) (self : Loggly).
Hypothesis Hnew : new_Loggly version (Some opts) = Ok self.

Lemma new_Loggly_fields :
  ∃ subdomain' token',
    truthy_only (opt_subdomain opts) = Some subdomain'
    ∧ truthy_only (opt_token opts) = Some token'
    ∧ token self = token'
    ∧ host self = or_else (opt_host opts) (js "logs-01.loggly.com")
    ∧ json self = opt_json opts
    ∧ isBulk self = opt_isBulk opts
    ∧ useTagHeader self = default true (opt_useTagHeader opts)
    ∧ default [] (tags self) = resolve (opt_tags opts)
    ∧ url_log (urls self) = js "https://" ++ host self ++ js "/inputs/" ++ token self
    ∧ url_bulk (urls self) = js "https://" ++ host self ++ js "/bulk/" ++ token self.
Proof.
  unfold new_Loggly in Hnew.
  destruct (truthy_only (opt_subdomain opts)) as [subdomain'|]; [|discriminate].
  destruct (truthy_only (opt_token opts)) as [token'|]; [|discriminate].
  injection Hnew as <-. exists subdomain', token'. cbn.
  repeat split; try (rewrite <- !app_assoc; reflexivity).
  destruct (opt_tags opts) as [[[|c tag]|ts]|]; reflexivity.
Qed.

Lemma base_uri_new :
  base_uri self
  = js "https://" ++ host self
    ++ (if isBulk self then js "/bulk/" else js "/inputs/") ++ token self.
Proof.
  destruct new_Loggly_fields as (? & ? & _ & _ & _ & _ & _ & _ & _ & _ & Hlog & Hbulk).
  unfold base_uri. destruct (isBulk self); assumption.
Qed.

End constructor_facts.

(** ** Tags on the request *)

(** C8. The tags of a call are the filtered default tags of the
    configuration followed by the filtered tags of the call, or the
    filtered default tags alone when the call brings none. A non-empty set
    goes, joined by commas, into the [X-LOGGLY-TAG] header when the client
    uses the tag header, and otherwise into a [/tag/.../] segment appended
    to the destination; an empty set leaves both alone. *)
Theorem log_tag_attachment version opts self common_serialize h msg call_tags req :
  new_Loggly version (Some opts) = Ok self →
  log common_serialize self h msg call_tags = Ok req →
  ∃ effective,
    effective = match call_tags with
                | Some t => resolve (opt_tags opts) ++ tagFilter t
                | None => resolve (opt_tags opts)
                end
    ∧ match effective with
      | [] => headers req !! "X-LOGGLY-TAG" = None ∧ uri req = base_uri self
      | _ :: _ =>
          if useTagHeader self
          then headers req !! "X-LOGGLY-TAG" = Some (join (js ",") effective)
               ∧ uri req = base_uri self
          else headers req !! "X-LOGGLY-TAG" = None
               ∧ uri req = base_uri self ++ js "/tag/" ++ join (js ",") effective
                           ++ js "/"
      end.
Proof.
  intros Hnew Hlog. apply log_request_for in Hlog. rewrite Hlog.
  rewrite uri_request_for, tag_header_request_for, merge_tags_resolve.
  destruct (new_Loggly_fields version opts self Hnew)
    as (? & ? & _ & _ & _ & _ & _ & _ & _ & Htags & _). rewrite Htags.
  exists (resolve (opt_tags opts) ++ resolve call_tags). split.
  - destruct call_tags; [reflexivity | apply app_nil_r].
  - destruct (resolve (opt_tags opts) ++ resolve call_tags); [done|].
    destruct (useTagHeader self); done.
Qed.

Lemma log_tag_attachment_witness :
  headers Sample.tagged_request !! "X-LOGGLY-TAG" = Some (js "Foo-1,ok-1")
  ∧ uri Sample.tagged_request = js "https://logs-01.loggly.com/inputs/0123-abcd".
Proof.
  destruct (log_tag_attachment (js "1.0.0")
              (Sample.with_tags (TagOne (js "Foo-1")) Sample.opts)
              Sample.tagged_client Sample.common_serialize ∅ (VString (js "hello"))
              (Some (TagMany [js "ok-1"])) Sample.tagged_request)
    as (effective & -> & Hreq).
  - reflexivity.
  - vm_compute. reflexivity.
  - exact Hreq.
Defined.

(** ** Method, destination and content type *)

(** C9, as stated, fails: with tags carried in the path the destination of
    the request is the ingestion address followed by the tag segment. *)
Lemma log_uri_with_tag_segment :
  uri <$> log Sample.common_serialize Sample.path_tag_client ∅ (VString (js "hello"))
            (Some (TagMany [js "ok-1"]))
  = Ok (js "https://logs-01.loggly.com/inputs/0123-abcd/tag/ok-1/")
  ∧ js "https://logs-01.loggly.com/inputs/0123-abcd/tag/ok-1/"
    ≠ js "https://" ++ host Sample.path_tag_client ++ js "/inputs/"
      ++ token Sample.path_tag_client.
Proof.
  split.
  - vm_compute. reflexivity.
  - vm_compute. discriminate.
Qed.

(** C9, amended. The request is a POST; its destination is
    [https://<host>/bulk/<token>] in bulk mode and
    [https://<host>/inputs/<token>] otherwise, followed by the tag segment
    when there are tags and the client does not use the tag header; its
    content type is [application/json] in json mode and [text/plain]
    otherwise. *)
Theorem log_request_line version opts self common_serialize h msg call_tags req :
  new_Loggly version (Some opts) = Ok self →
  log common_serialize self h msg call_tags = Ok req →
  method req = js "POST"
  ∧ uri req
    = js "https://" ++ host self
      ++ (if isBulk self then js "/bulk/" else js "/inputs/") ++ token self
      ++ match default [] (tags self) ++ resolve call_tags with
         | [] => []
         | t :: ts => if useTagHeader self then []
                      else js "/tag/" ++ join (js ",") (t :: ts) ++ js "/"
         end
  ∧ headers req !! "content-type"
    = Some (if json self then js "application/json" else js "text/plain")
  ∧ host self = or_else (opt_host opts) (js "logs-01.loggly.com")
  ∧ truthy_only (opt_token opts) = Some (token self)
  ∧ isBulk self = opt_isBulk opts
  ∧ json self = opt_json opts.
Proof.
  intros Hnew Hlog. apply log_request_for in Hlog. rewrite Hlog.
  rewrite method_request_for, uri_request_for, content_type_request_for,
    merge_tags_resolve, (base_uri_new version opts self Hnew).
  destruct (new_Loggly_fields version opts self Hnew)
    as (? & ? & _ & Htok & Htoken & Hhost & Hjson & Hbulk & _).
  repeat split; try assumption.
  - destruct (default [] (tags self) ++ resolve call_tags) as [|t ts].
    + rewrite app_nil_r. reflexivity.
    + destruct (useTagHeader self).
      * rewrite app_nil_r. reflexivity.
      * unfold tag_segment. rewrite <- ?app_assoc. reflexivity.
  - rewrite Htok, Htoken. reflexivity.
Qed.

Lemma log_request_line_witness :
  method Sample.tagged_request = js "POST"
  ∧ uri Sample.tagged_request = js "https://logs-01.loggly.com/inputs/0123-abcd"
  ∧ headers Sample.tagged_request !! "content-type" = Some (js "text/plain").
Proof.
  destruct (log_request_line (js "1.0.0")
              (Sample.with_tags (TagOne (js "Foo-1")) Sample.opts)
              Sample.tagged_client Sample.common_serialize ∅ (VString (js "hello"))
              (Some (TagMany [js "ok-1"])) Sample.tagged_request)
    as (Hmethod & Huri & Htype & _).
  - reflexivity.
  - vm_compute. reflexivity.
  - split; [exact Hmethod|]. split; [exact Huri | exact Htype].
Defined.

(** ** The completion handler *)

Section number_facts.

Lemma js_inj (s t : string) : js s = js t → s = t.
Proof.
  unfold js. intros Heq.
  rewrite <- (string_of_list_ascii_of_string s), <- (string_of_list_ascii_of_string t).
  f_equal. revert Heq.
  generalize (list_ascii_of_string s) (list_ascii_of_string t).
  induction l as [|a l IH]; intros [|b l']; cbn; try discriminate; [reflexivity|].
  intros [= Hab Hl]. f_equal; [|apply IH, Hl].
  rewrite <- (ascii_N_embedding a), <- (ascii_N_embedding b), Hab. reflexivity.
Qed.

Lemma to_int_not_nil (n : Z) :
  Z.to_int n ≠ Decimal.Pos Decimal.Nil ∧ Z.to_int n ≠ Decimal.Neg Decimal.Nil.
Proof.
  destruct n as [|p|p]; cbn; split; try discriminate;
    intros [= Hnil]; exact (Unsigned.to_uint_nonnil p Hnil).
Qed.

Lemma Number_toString_inj (a b : Z) : Number_toString a = Number_toString b → a = b.
Proof.
  unfold Number_toString. intros Heq%js_inj.
  apply (f_equal NilZero.int_of_string) in Heq.
  rewrite !NilZero.isi in Heq by apply to_int_not_nil.
  injection Heq as Heq. apply to_int_inj, Heq.
Qed.

(** [res.statusCode.toString() === '200'] *)
Lemma status_is_200 (n : Z) :
  bool_decide (Number_toString n = js "200") = bool_decide (n = 200).
Proof.
  apply bool_decide_ext. split.
  - intros Heq. apply Number_toString_inj. rewrite Heq. reflexivity.
  - intros ->. reflexivity.
Qed.

End number_facts.

Section completion_facts.
Variable JSON_parse : jsstring → result value.
Variable env : surroundings.
Implicit Types (res : response) (body : jsstring).

Lemma on_response_else res body :
  statusCode res ≠ 200 ∨ body = [] →
  on_response JSON_parse env res body
  = ([ConsoleLog (js "Error Code- " ++ Number_toString (statusCode res)
                  ++ js " " ++ dq ++ statusMessage res ++ dq)], Ok tt).
Proof.
  intros Hcase. unfold on_response. rewrite status_is_200.
  replace (truthy_string body && bool_decide (statusCode res = 200)) with false.
  - reflexivity.
  - symmetry. destruct Hcase as [Hne | ->]; [|reflexivity].
    rewrite bool_decide_eq_false_2 by exact Hne. apply andb_false_r.
Qed.

Lemma on_response_then res body :
  statusCode res = 200 → body ≠ [] →
  on_response JSON_parse env res body
  = Run.catch
      (result ⇐ Run.pure (JSON_parse body);;
       _ ⇐ Run.perform (Emit "log" result) (log_listeners env result);;
       call_back env (CbResult result))
      (λ ex, call_back env
               (CbError (js "Unspecified error from Loggly: " ++ exn_toString ex))).
Proof.
  intros Hcode Hbody. unfold on_response. rewrite status_is_200.
  rewrite bool_decide_eq_true_2 by exact Hcode.
  destruct body; [done | reflexivity].
Qed.

End completion_facts.

(** C7, as stated, fails: the event is emitted inside the [try], before
    the callback is called. With status 200 and a body that parses, a
    listener of the [log] event that throws sends the handler to its
    [catch]: the callback is called with an [Error] and never with
    [(null, result)]. *)
Lemma on_response_listener_blocks_result :
  statusCode Callers.ok_response = 200
  ∧ Sample.JSON_parse (js "true") = Ok (VBoolean true)
  ∧ Run.trace (on_response Sample.JSON_parse Callers.failing_listeners
                 Callers.ok_response (js "true"))
    = [Emit "log" (VBoolean true);
       Callback (CbError (js "Unspecified error from Loggly: Error: listener"))]
  ∧ Callback (CbResult (VBoolean true))
    ∉ Run.trace (on_response Sample.JSON_parse Callers.failing_listeners
                   Callers.ok_response (js "true")).
Proof.
  assert (Htrace : Run.trace (on_response Sample.JSON_parse Callers.failing_listeners
                                Callers.ok_response (js "true"))
                   = [Emit "log" (VBoolean true);
                      Callback (CbError (js "Unspecified error from Loggly: Error: listener"))])
    by (vm_compute; reflexivity).
  split; [reflexivity|]. split; [reflexivity|]. split; [exact Htrace|].
  rewrite Htrace. intros Hin.
  apply elem_of_cons in Hin as [Hin|Hin]; [discriminate Hin|].
  apply list_elem_of_singleton in Hin. discriminate Hin.
Qed.

(** C7, amended. With status 200 and a body that is not empty: when the
    body parses, the [log] event is emitted with the parsed result and,
    provided the listeners of the event return, a caller that gave a
    callback has it called with [(null, result)]; when the body does not
    parse, the callback is called with an [Error] whose message is the
    parser's exception after the prefix [Unspecified error from Loggly: ].
    With any other status the callback is never called with a result. *)
Theorem on_response_callback JSON_parse env res body :
  (∀ result, statusCode res = 200 → body ≠ [] → JSON_parse body = Ok result →
     (∃ rest, Run.trace (on_response JSON_parse env res body)
              = Emit "log" result :: rest)
     ∧ (∀ cb, callback env = Some cb → log_listeners env result = None →
          ∃ rest, Run.trace (on_response JSON_parse env res body)
                  = Emit "log" result :: Callback (CbResult result) :: rest))
  ∧ (∀ ex cb, statusCode res = 200 → body ≠ [] → JSON_parse body = Throw ex →
       callback env = Some cb →
       Run.trace (on_response JSON_parse env res body)
       = [Callback (CbError (js "Unspecified error from Loggly: " ++ exn_toString ex))])
  ∧ (statusCode res ≠ 200 →
     ∀ result, Callback (CbResult result)
               ∉ Run.trace (on_response JSON_parse env res body)).
Proof.
  split; [|split].
  - intros result Hcode Hbody Hparse.
    rewrite on_response_then by assumption.
    unfold call_back, Run.trace. rewrite Hparse. split.
    + cbn -[js].
      destruct (log_listeners env result), (callback env) as [cb|]; cbn -[js];
        try destruct (cb _); cbn -[js]; eexists; reflexivity.
    + intros cb Hcb Hlisten. rewrite Hcb. cbn -[js]. rewrite Hlisten. cbn -[js].
      destruct (cb (CbResult result)) as [ex|]; cbn -[js]; eexists; reflexivity.
  - intros ex cb Hcode Hbody Hparse Hcb.
    rewrite on_response_then by assumption.
    unfold call_back. rewrite Hparse, Hcb. reflexivity.
  - intros Hcode result. rewrite on_response_else by (left; exact Hcode).
    cbn. rewrite list_elem_of_singleton. discriminate.
Qed.

Lemma on_response_callback_witness :
  (∃ rest, Run.trace (on_response Sample.JSON_parse Sample.quiet
                        {| statusCode := 200; statusMessage := js "OK" |} (js "true"))
           = Emit "log" (VBoolean true) :: Callback (CbResult (VBoolean true)) :: rest)
  ∧ Run.trace (on_response Sample.JSON_parse Sample.quiet
                 {| statusCode := 200; statusMessage := js "OK" |} (js "<html>"))
    = [Callback (CbError (js "Unspecified error from Loggly: "
                          ++ js "SyntaxError: Unexpected token in JSON"))].
Proof.
  split.
  - refine (proj2 (proj1 (on_response_callback Sample.JSON_parse Sample.quiet
                            {| statusCode := 200; statusMessage := js "OK" |}
                            (js "true")) (VBoolean true) _ _ _) (λ _, None) _ _).
    + reflexivity.
    + discriminate.
    + reflexivity.
    + reflexivity.
    + reflexivity.
  - refine (proj1 (proj2 (on_response_callback Sample.JSON_parse Sample.quiet
                            {| statusCode := 200; statusMessage := js "OK" |}
                            (js "<html>")))
              (Error (js "SyntaxError") (js "Unexpected token in JSON"))
              (λ _, None) _ _ _ _).
    + reflexivity.
    + discriminate.
    + reflexivity.
    + reflexivity.
Defined.

(** C10. With a status other than 200, or with an empty body (also with
    status 200), the handler writes one line to the console and does
    nothing else: the callback is not called, with a result or with an
    error, and no event is emitted. *)
Theorem on_response_failure JSON_parse env res body :
  statusCode res ≠ 200 ∨ body = [] →
  on_response JSON_parse env res body
  = ([ConsoleLog (js "Error Code- " ++ Number_toString (statusCode res)
                  ++ js " " ++ dq ++ statusMessage res ++ dq)], Ok tt)
  ∧ ∀ args, Callback args ∉ Run.trace (on_response JSON_parse env res body).
Proof.
  intros Hcase. rewrite on_response_else by exact Hcase. split; [reflexivity|].
  intros args. cbn. rewrite list_elem_of_singleton. discriminate.
Qed.

Lemma on_response_failure_witness :
  on_response Sample.JSON_parse Sample.quiet
    {| statusCode := 200; statusMessage := js "OK" |} []
  = ([ConsoleLog (js "Error Code- 200 " ++ dq ++ js "OK" ++ dq)], Ok tt)
  ∧ on_response Sample.JSON_parse Sample.quiet
      {| statusCode := 503; statusMessage := js "Service Unavailable" |} (js "true")
    = ([ConsoleLog (js "Error Code- 503 " ++ dq ++ js "Service Unavailable" ++ dq)],
       Ok tt).
Proof.
  split.
  - apply (on_response_failure Sample.JSON_parse Sample.quiet
             {| statusCode := 200; statusMessage := js "OK" |} []).
    right. reflexivity.
  - apply (on_response_failure Sample.JSON_parse Sample.quiet
             {| statusCode := 503; statusMessage := js "Service Unavailable" |}
             (js "true")).
    left. cbn. lia.
Defined.

(** ** The serialiser always answers *)

Section termination.
Variable on_cycle : result (option jsstring).
Hypothesis on_cycle_answers : on_cycle ≠ Stuck.
Variable h : heap.
Hypothesis h_closed : closed h.

Lemma object_members_answers ser props :
  (∀ v, v ∈ props.*2 → ser v ≠ Stuck) → object_members ser props ≠ Stuck.
Proof.
  induction props as [|[k v] props IH]; intros Hser; cbn; [discriminate|].
  pose proof (Hser v ltac:(cbn; left)) as Hv.
  assert (Hrest : object_members ser props ≠ Stuck)
    by (apply IH; intros v' Hv'; apply Hser; cbn; right; exact Hv').
  destruct (ser v); [|discriminate|done].
  cbn. destruct (object_members ser props); [discriminate|discriminate|done].
Qed.

Lemma array_elements_answers ser elems :
  (∀ v, v ∈ elems → ser v ≠ Stuck) → array_elements ser elems ≠ Stuck.
Proof.
  induction elems as [|v elems IH]; intros Hser; cbn; [discriminate|].
  pose proof (Hser v ltac:(left)) as Hv.
  assert (Hrest : array_elements ser elems ≠ Stuck)
    by (apply IH; intros v' Hv'; apply Hser; right; exact Hv').
  destruct (ser v); [|discriminate|done].
  cbn. destruct (array_elements ser elems); [discriminate|discriminate|done].
Qed.

(** The objects being serialised are distinct and allocated, so there
    are fewer of them than objects in the heap. *)
Lemma stack_bound (stack : list loc) l :
  NoDup stack → (∀ l', l' ∈ stack → is_Some (h !! l')) →
  l ∉ stack → is_Some (h !! l) →
  (length stack < size h)%nat.
Proof.
  intros Hnodup Hstack Hl Hsome.
  assert (Hsub : list_to_set (C := gset loc) (l :: stack) ⊆ dom h).
  { intros l' Hl'. apply elem_of_list_to_set in Hl'. apply elem_of_dom.
    apply elem_of_cons in Hl' as [-> | Hl']; [exact Hsome | apply Hstack, Hl']. }
  apply subseteq_size in Hsub.
  rewrite size_list_to_set in Hsub by (constructor; assumption).
  rewrite size_dom in Hsub. cbn in Hsub. lia.
Qed.

Lemma SerializeJSONProperty_answers fuel (stack : list loc) v :
  NoDup stack → (∀ l, l ∈ stack → is_Some (h !! l)) →
  (size h ≤ length stack + fuel)%nat →
  allocated h v →
  SerializeJSONProperty on_cycle fuel h stack v ≠ Stuck.
Proof.
  revert stack v. induction fuel as [|fuel IH]; intros stack v Hnodup Hstack Hfuel Hv.
  - destruct v as [| |[]| | | |l]; try discriminate.
    cbn. case_bool_decide as Hin; [exact on_cycle_answers|].
    pose proof (stack_bound stack l Hnodup Hstack Hin Hv). lia.
  - destruct v as [| |[]| | | |l]; try discriminate.
    cbn. case_bool_decide as Hin; [exact on_cycle_answers|].
    destruct Hv as [o Ho]. rewrite Ho.
    assert (Hsub : ∀ v, v ∈ object_values o →
              SerializeJSONProperty on_cycle fuel h (l :: stack) v ≠ Stuck).
    { intros v Hv. apply IH.
      - constructor; assumption.
      - intros l' [-> | Hl']%elem_of_cons; [eexists; exact Ho | apply Hstack, Hl'].
      - cbn. lia.
      - exact (h_closed l o v Ho Hv). }
    destruct o as [props|elems]; cbn in Hsub.
    + pose proof (object_members_answers _ props Hsub) as Hms.
      destruct (object_members _ props); [discriminate|discriminate|done].
    + pose proof (array_elements_answers _ elems Hsub) as Hes.
      destruct (array_elements _ elems); [discriminate|discriminate|done].
Qed.

End termination.

(** On a heap without dangling references [JSON.stringify] returns or
    throws: the fuel of the model never runs out. *)
Lemma JSON_stringify_not_Stuck h v :
  closed h → allocated h v → JSON.stringify h v ≠ Stuck.
Proof.
  intros Hclosed Hv. unfold JSON.stringify.
  apply SerializeJSONProperty_answers;
    [discriminate | exact Hclosed | constructor | | cbn; lia | exact Hv].
  intros l Hl. inversion Hl.
Qed.

Section throws.
Variable on_cycle : result (option jsstring).
Variable ex : exn.

Lemma object_members_throws ser props :
  object_members ser props = Throw ex → ∃ v, v ∈ props.*2 ∧ ser v = Throw ex.
Proof.
  induction props as [|[k v] props IH]; cbn; [discriminate|].
  destruct (ser v) as [str|ex'|] eqn:Hv; cbn; [|intros [= ->]|discriminate].
  - destruct (object_members ser props) as [ms|ex'|]; cbn; try discriminate.
    intros [= ->]. destruct IH as (v' & Hin & Hv'); [reflexivity|].
    exists v'. split; [right; exact Hin | exact Hv'].
  - exists v. split; [left | exact Hv].
Qed.

Lemma array_elements_throws ser elems :
  array_elements ser elems = Throw ex → ∃ v, v ∈ elems ∧ ser v = Throw ex.
Proof.
  induction elems as [|v elems IH]; cbn; [discriminate|].
  destruct (ser v) as [str|ex'|] eqn:Hv; cbn; [|intros [= ->]|discriminate].
  - destruct (array_elements ser elems) as [es|ex'|]; cbn; try discriminate.
    intros [= ->]. destruct IH as (v' & Hin & Hv'); [reflexivity|].
    exists v'. split; [right; exact Hin | exact Hv'].
  - exists v. split; [left | exact Hv].
Qed.

(** The only exception of the serialiser is the one of a cycle. *)
Lemma SerializeJSONProperty_throws fuel h (stack : list loc) v :
  SerializeJSONProperty on_cycle fuel h stack v = Throw ex → on_cycle = Throw ex.
Proof.
  revert stack v. induction fuel as [|fuel IH]; intros stack v.
  - destruct v as [| |[]| | | |l]; try discriminate.
    cbn. case_bool_decide; [done|]. destruct (h !! l) as [[]|]; discriminate.
  - destruct v as [| |[]| | | |l]; try discriminate.
    cbn. case_bool_decide; [done|].
    destruct (h !! l) as [[props|elems]|]; [| |discriminate].
    + destruct (object_members _ props) as [ms|ex'|] eqn:Hms; cbn; try discriminate.
      intros [= ->]. apply object_members_throws in Hms as (v & _ & Hv).
      exact (IH _ _ Hv).
    + destruct (array_elements _ elems) as [es|ex'|] eqn:Hes; cbn; try discriminate.
      intros [= ->]. apply array_elements_throws in Hes as (v & _ & Hv).
      exact (IH _ _ Hv).
Qed.

End throws.

(** The helper with the fallback always returns on such a heap. *)
Lemma stringify_answers h v :
  closed h → allocated h v → ∃ text, stringify h v = Ok text.
Proof.
  intros Hclosed Hv. unfold stringify, try_catch.
  pose proof (JSON_stringify_not_Stuck h v Hclosed Hv) as Hjson.
  destruct (JSON.stringify h v) as [text|ex|]; [eexists; reflexivity| |done].
  unfold stringifySafe.
  destruct (SerializeJSONProperty (Ok None) (size h) h [] v) as [text|ex'|] eqn:Hsafe.
  - eexists; reflexivity.
  - apply SerializeJSONProperty_throws in Hsafe. discriminate Hsafe.
  - exfalso. revert Hsafe.
    apply SerializeJSONProperty_answers;
      [discriminate | exact Hclosed | constructor | | cbn; lia | exact Hv].
    intros l Hl. inversion Hl.
Qed.

(** ** The scenarios of the specification *)

(** [log('hello')] on a plain client without tags: the body is the text,
    the content type is [text/plain], no tag header and no tag segment. *)
Example scenario_plain_hello :
  ∃ req, log Sample.common_serialize Sample.plain_client ∅ (VString (js "hello")) None
         = Ok req
         ∧ body req = BodyValue (VString (js "hello"))
         ∧ headers req !! "content-type" = Some (js "text/plain")
         ∧ headers req !! "X-LOGGLY-TAG" = None
         ∧ uri req = js "https://logs-01.loggly.com/inputs/0123-abcd".
Proof. eexists. split; [vm_compute; reflexivity|]. repeat split. Qed.

(** [log({a: 1}, ['Foo-1'])] on a json client: the body is the encoding of
    the object, not wrapped, and the tag goes into the header. *)
Example scenario_json_object :
  ∃ req, log Sample.common_serialize Sample.json_client Sample.small_object
             (VObject 1%positive) (Some (TagMany [js "Foo-1"]))
         = Ok req
         ∧ body req = BodyValue (VString (js "{" ++ dq ++ js "a" ++ dq ++ js ":1}"))
         ∧ headers req !! "content-type" = Some (js "application/json")
         ∧ headers req !! "X-LOGGLY-TAG" = Some (js "Foo-1").
Proof. eexists. split; [vm_compute; reflexivity|]. repeat split. Qed.

(** Two messages in bulk mode, in json mode: each in its envelope, in the
    order of the input. *)
Example scenario_bulk_json :
  body <$> log Sample.common_serialize
             (Sample.client (Sample.with_json true (Sample.with_isBulk true Sample.opts)))
             Sample.two_messages (VObject 1%positive) None
  = Ok (BodyArray [VString (envelope (VString (js "a")));
                   VString (envelope (VString (js "b")))]).
Proof. vm_compute. reflexivity. Qed.

(** * Further properties of the client *)

(** ** The constructor *)

(** X1. The constructor throws its one error exactly when there are no
    options or when the subdomain or the token is missing or empty;
    otherwise it returns a client with that subdomain and token. *)
Theorem new_Loggly_required version o :
  (new_Loggly version o = Throw required_error
   ↔ o = None ∨ ∃ opts, o = Some opts
                        ∧ (missing (opt_subdomain opts) ∨ missing (opt_token opts)))
  ∧ (∀ opts, o = Some opts →
       ¬ missing (opt_subdomain opts) → ¬ missing (opt_token opts) →
       ∃ self, new_Loggly version o = Ok self
               ∧ opt_subdomain opts = Some (subdomain self)
               ∧ opt_token opts = Some (token self)).
Proof.
  unfold missing. split.
  - split.
    + destruct o as [opts|]; [|by left]. intros Hthrow. right. exists opts.
      split; [reflexivity|]. cbn in Hthrow.
      destruct (opt_subdomain opts) as [[|c sub]|]; cbn in Hthrow; [by left; right| |by left; left].
      destruct (opt_token opts) as [[|d tok]|]; cbn in Hthrow;
        [by right; right|discriminate|by right; left].
    + intros [-> | (opts & -> & Hmiss)]; [reflexivity|]. cbn.
      destruct Hmiss as [[-> | ->] | [-> | ->]]; cbn; try reflexivity;
        destruct (truthy_only (opt_subdomain opts)); reflexivity.
  - intros opts -> Hsub Htok. cbn.
    destruct (opt_subdomain opts) as [[|c sub]|]; [exfalso; auto| |exfalso; auto].
    destruct (opt_token opts) as [[|d tok]|]; [exfalso; auto| |exfalso; auto].
    cbn. eexists. split; [reflexivity|]. split; reflexivity.
Qed.

Lemma new_Loggly_required_witness :
  ∃ self, new_Loggly (js "1.0.0") (Some Sample.opts) = Ok self
          ∧ opt_subdomain Sample.opts = Some (subdomain self)
          ∧ opt_token Sample.opts = Some (token self).
Proof.
  apply (proj2 (new_Loggly_required (js "1.0.0") (Some Sample.opts)) Sample.opts).
  - reflexivity.
  - intros [H | H]; discriminate H.
  - intros [H | H]; discriminate H.
Defined.

(** ** The addresses of the API *)

Lemma join_cons (sep x : jsstring) (l : list jsstring) :
  join sep (x :: l) = x ++ concat ((λ a, sep ++ a) <$> l).
Proof.
  revert x. induction l as [|y l IH]; intros x.
  - cbn. rewrite app_nil_r. reflexivity.
  - change (join sep (x :: y :: l)) with (x ++ sep ++ join sep (y :: l)).
    rewrite IH. cbn [fmap list_fmap concat]. rewrite <- app_assoc. reflexivity.
Qed.

Lemma new_Loggly_api version opts self :
  new_Loggly version (Some opts) = Ok self →
  url_api (urls self)
  = js "https://" ++ subdomain self ++ js ".loggly.com/"
    ++ or_else (opt_api opts) (js "apiv2").
Proof.
  unfold new_Loggly.
  destruct (truthy_only (opt_subdomain opts)) as [sub|]; [|discriminate].
  destruct (truthy_only (opt_token opts)) as [tok|]; [|discriminate].
  intros Hnew. injection Hnew as <-. cbn. rewrite <- ?app_assoc. reflexivity.
Qed.

Lemma logglyUrl_shape_aux version opts self args :
  new_Loggly version (Some opts) = Ok self →
  logglyUrl self args
  = js "https://" ++ subdomain self ++ js ".loggly.com/"
    ++ or_else (opt_api opts) (js "apiv2")
    ++ concat ((λ a, js "/" ++ a) <$> args).
Proof.
  intros Hnew. unfold logglyUrl. cbn [app]. rewrite join_cons.
  rewrite (new_Loggly_api version opts self Hnew), <- !app_assoc. reflexivity.
Qed.

(** X2. For a client built by the constructor, [logglyUrl] is the address
    [https://<subdomain>.loggly.com/<api>] ([apiv2] unless configured)
    followed by each argument after a slash; without arguments it is that
    address alone. *)
Theorem logglyUrl_shape version opts self args :
  new_Loggly version (Some opts) = Ok self →
  logglyUrl self args
  = js "https://" ++ subdomain self ++ js ".loggly.com/"
    ++ or_else (opt_api opts) (js "apiv2")
    ++ concat ((λ a, js "/" ++ a) <$> args).
Proof. apply logglyUrl_shape_aux. Qed.

Lemma logglyUrl_shape_witness :
  logglyUrl Sample.plain_client [js "customer"]
  = js "https://" ++ subdomain Sample.plain_client ++ js ".loggly.com/"
    ++ or_else (opt_api Sample.opts) (js "apiv2")
    ++ concat ((λ a, js "/" ++ a) <$> [js "customer"]).
Proof. apply (logglyUrl_shape (js "1.0.0") Sample.opts). reflexivity. Defined.

(** ** The tag filter, again *)

(** X3. Filtering is idempotent and goes through concatenation, and a lone
    tag is filtered as the array of that tag: the tags a client has kept
    at its construction are not changed by being filtered again. *)
Theorem tagFilter_algebra (t : tag_input) (ts1 ts2 : list jsstring) (tag : jsstring) :
  tagFilter (TagMany (tagFilter t)) = tagFilter t
  ∧ tagFilter (TagMany (ts1 ++ ts2)) = tagFilter (TagMany ts1) ++ tagFilter (TagMany ts2)
  ∧ tagFilter (TagOne tag) = tagFilter (TagMany [tag]).
Proof.
  split; [|split].
  - unfold tagFilter. cbv zeta. apply list_filter_filter_r. auto.
  - unfold tagFilter. cbv zeta. apply filter_app.
  - reflexivity.
Qed.

(** What [kept] asks of a tag. *)
Lemma kept_inv (tag : jsstring) :
  kept tag = true →
  ∃ c d rest, tag = c :: d :: rest
              ∧ Regex.head_class c = true ∧ Regex.tail_class d = true
              ∧ Z.of_nat (length tag) <= 64.
Proof.
  unfold kept, Regex.isSolid_test. destruct tag as [|c [|d rest]].
  - discriminate.
  - cbn. rewrite andb_false_r. discriminate.
  - cbn [truthy_string Regex.longest]. rewrite !andb_true_iff.
    intros [[_ [Hc Hd]] Hlen]. exists c, d, rest.
    destruct (Regex.tail_class d); [|discriminate Hd].
    repeat split; [exact Hc | apply Z.leb_le, Hlen].
Qed.

Lemma tagFilter_kept (t : tag_input) : Forall (λ tag, kept tag = true) (tagFilter t).
Proof.
  apply Forall_forall. intros tag Hin. unfold tagFilter in Hin. cbv zeta in Hin.
  apply list_elem_of_filter in Hin as [Hkept _]. exact Hkept.
Qed.

(** X4. Every tag that a request carries, from the configuration or from
    the call, has passed the filter: it has at least two characters, of
    which the first is a word character and the second a word character,
    a hyphen or a dot, and it is at most 64 code units long. The header or
    the path segment is built from exactly these tags. *)
Theorem request_tags_kept version opts self common_serialize h msg call_tags req :
  new_Loggly version (Some opts) = Ok self →
  log common_serialize self h msg call_tags = Ok req →
  ∃ ts, Forall (λ tag, ∃ c d rest, tag = c :: d :: rest
                                    ∧ Regex.head_class c = true
                                    ∧ Regex.tail_class d = true
                                    ∧ Z.of_nat (length tag) <= 64) ts
        ∧ (headers req !! "X-LOGGLY-TAG" = None
           ∨ headers req !! "X-LOGGLY-TAG" = Some (join (js ",") ts))
        ∧ (uri req = base_uri self ∨ uri req = base_uri self ++ tag_segment ts).
Proof.
  intros Hnew Hlog. apply log_request_for in Hlog. rewrite Hlog.
  rewrite uri_request_for, tag_header_request_for, merge_tags_resolve.
  destruct (new_Loggly_fields version opts self Hnew)
    as (? & ? & _ & _ & _ & _ & _ & _ & _ & Htags & _). rewrite Htags.
  exists (resolve (opt_tags opts) ++ resolve call_tags). split.
  - apply Forall_app. split.
    + destruct (opt_tags opts) as [t|]; [|constructor].
      eapply Forall_impl; [apply tagFilter_kept | apply kept_inv].
    + destruct call_tags as [t|]; [|constructor].
      eapply Forall_impl; [apply tagFilter_kept | apply kept_inv].
  - destruct (resolve (opt_tags opts) ++ resolve call_tags) as [|t ts];
      [by split; left|].
    destruct (useTagHeader self); split; auto.
Qed.

Lemma request_tags_kept_witness :
  ∃ ts, Forall (λ tag, ∃ c d rest, tag = c :: d :: rest
                                    ∧ Regex.head_class c = true
                                    ∧ Regex.tail_class d = true
                                    ∧ Z.of_nat (length tag) <= 64) ts
        ∧ (headers Sample.tagged_request !! "X-LOGGLY-TAG" = None
           ∨ headers Sample.tagged_request !! "X-LOGGLY-TAG" = Some (join (js ",") ts))
        ∧ (uri Sample.tagged_request = base_uri Sample.tagged_client
           ∨ uri Sample.tagged_request = base_uri Sample.tagged_client ++ tag_segment ts).
Proof.
  apply (request_tags_kept (js "1.0.0")
           (Sample.with_tags (TagOne (js "Foo-1")) Sample.opts)
           Sample.tagged_client Sample.common_serialize ∅ (VString (js "hello"))
           (Some (TagMany [js "ok-1"])) Sample.tagged_request).
  - reflexivity.
  - vm_compute. reflexivity.
Defined.

(** ** The truncation step, in general *)

(** A code unit takes at least one byte and at most three. *)
Lemma byteLength_bounds (s : jsstring) :
  Z.of_nat (length s) <= byteLength s <= 3 * Z.of_nat (length s).
Proof.
  remember (length s) as n eqn:Hn.
  revert s Hn. induction (lt_wf n) as [n _ IH]. intros s ->.
  destruct s as [|c [|d rest]].
  - cbn. lia.
  - cbn. repeat case_match; lia.
  - pose proof (IH (length (d :: rest)) ltac:(cbn; lia) (d :: rest) eq_refl) as H1.
    pose proof (IH (length rest) ltac:(cbn; lia) rest eq_refl) as H2.
    change (byteLength (c :: d :: rest))
      with (if (c <? 0x80)%N then 1 + byteLength (d :: rest)
            else if (c <? 0x800)%N then 2 + byteLength (d :: rest)
            else if is_high_surrogate c then
              if is_low_surrogate d then 4 + byteLength rest
              else 3 + byteLength (d :: rest)
            else 3 + byteLength (d :: rest)).
    cbn [length] in *. repeat case_match; lia.
Qed.

(** X5. Whatever the message, the text that leaves the truncation step is
    a prefix of it of at most [EVENT_SIZE] code units, hence of at most
    three times [EVENT_SIZE] bytes, and it is flagged exactly when the
    message had more than [EVENT_SIZE] bytes. *)
Theorem truncateLargeMessage_bounded (m : jsstring) :
  message (truncateLargeMessage m) `prefix_of` m
  ∧ Z.of_nat (length (message (truncateLargeMessage m))) <= EVENT_SIZE
  ∧ byteLength (message (truncateLargeMessage m)) <= 3 * EVENT_SIZE
  ∧ isMessageTruncated (truncateLargeMessage m) = bool_decide (EVENT_SIZE < byteLength m).
Proof.
  assert (Hcut : message (truncateLargeMessage m) `prefix_of` m
                 ∧ Z.of_nat (length (message (truncateLargeMessage m))) <= EVENT_SIZE
                 ∧ isMessageTruncated (truncateLargeMessage m)
                   = bool_decide (EVENT_SIZE < byteLength m)).
  { destruct (Z.le_gt_cases (byteLength m) EVENT_SIZE) as [Hle|Hgt].
    - rewrite truncateLargeMessage_small by exact Hle. cbn [message isMessageTruncated].
      split; [reflexivity|]. split.
      + pose proof (byteLength_bounds m). lia.
      + symmetry. apply bool_decide_eq_false_2. lia.
    - rewrite truncateLargeMessage_large by exact Hgt. cbn [message isMessageTruncated].
      split; [apply prefix_take|]. split.
      + rewrite length_take. rewrite EVENT_SIZE_eq. lia.
      + symmetry. apply bool_decide_eq_true_2. exact Hgt. }
  destruct Hcut as (Hprefix & Hlen & Hflag). repeat split; try assumption.
  pose proof (byteLength_bounds (message (truncateLargeMessage m))). lia.
Qed.

(** X6. The truncation step is idempotent on the text: cutting what has
    been cut gives the same text. *)
Theorem truncateLargeMessage_idempotent (m : jsstring) :
  message (truncateLargeMessage (message (truncateLargeMessage m)))
  = message (truncateLargeMessage m).
Proof.
  destruct (Z.le_gt_cases (byteLength (message (truncateLargeMessage m))) EVENT_SIZE)
    as [Hle|Hgt].
  - rewrite (truncateLargeMessage_small _ Hle). reflexivity.
  - rewrite (truncateLargeMessage_large _ Hgt). cbn [message].
    destruct (Z.le_gt_cases (byteLength m) EVENT_SIZE) as [Hle'|Hgt'].
    + rewrite truncateLargeMessage_small in Hgt by exact Hle'. cbn [message] in Hgt. lia.
    + rewrite truncateLargeMessage_large by exact Hgt'. cbn [message].
      rewrite take_take, Nat.min_id. reflexivity.
Qed.

(** ** The helper [stringify] *)

Lemma closed_cyclic : closed Sample.cyclic.
Proof.
  intros l o v Hl Hv. unfold Sample.cyclic in *.
  apply lookup_singleton_Some in Hl as [<- <-]. cbn in Hv.
  apply list_elem_of_singleton in Hv as ->. cbn.
  rewrite lookup_singleton_eq. eexists. reflexivity.
Qed.



(** ** More of [log] *)

Lemma null_within_limit : byteLength (js "null") <= EVENT_SIZE.
Proof. rewrite EVENT_SIZE_eq. vm_compute. discriminate. Qed.

(** X8. A message that is neither a string, an object nor a function
    ([undefined], [null], a boolean, a number) always gives a request, and
    is never truncated: in plain mode the body is the value itself, not a
    text; in json mode it is the encoding of [{message: value}]. *)
Theorem log_primitive common_serialize self h msg call_tags :
  instanceof_Object msg = false → typeof msg ≠ TString →
  log common_serialize self h msg call_tags
  = Ok (request_for self
          (BodyValue (if json self then VString (envelope msg) else msg)) call_tags).
Proof.
  intros Hobj Hstr.
  assert (Htrunc : truncate_msg h msg = Ok msg).
  { destruct msg as [| |b|n|s| |l]; try reflexivity; try discriminate Hobj.
    - unfold truncate_msg. cbn [typeof].
      unfold JSON.stringify. rewrite SerializeJSONProperty_primitive by reflexivity.
      cbn [mbind result_bind primitive_text].
      rewrite (truncateLargeMessage_small _ null_within_limit). reflexivity.
    - exfalso. apply Hstr. reflexivity. }
  assert (Harr : as_array h msg = None)
    by (destruct msg; try reflexivity; discriminate Hobj).
  unfold log. rewrite Htrunc. cbn [mbind result_bind]. rewrite Harr.
  replace (if isBulk self then None else None) with (@None (list value))
    by (destruct (isBulk self); reflexivity).
  destruct (json self) eqn:Hjson.
  - rewrite serialize_json_primitive by assumption. reflexivity.
  - rewrite serialize_plain_primitive by assumption. reflexivity.
Qed.

Lemma log_primitive_witness :
  log Sample.common_serialize Sample.plain_client ∅ (VNumber 42) None
  = Ok (request_for Sample.plain_client
          (BodyValue (if json Sample.plain_client
                      then VString (envelope (VNumber 42)) else VNumber 42)) None).
Proof.
  apply (log_primitive Sample.common_serialize Sample.plain_client ∅ (VNumber 42) None).
  - reflexivity.
  - discriminate.
Defined.

(** X9. In plain mode an object whose encoding is over the limit is sent
    as the cut text of its JSON encoding: [common.serialize], which
    renders the objects that are within the limit, is not consulted. *)
Theorem log_plain_object_large common_serialize self h l text call_tags :
  json self = false →
  JSON.stringify h (VObject l) = Ok (Some text) →
  EVENT_SIZE < byteLength text →
  log common_serialize self h (VObject l) call_tags
  = Ok (request_for self
          (BodyValue (VString (message (truncateLargeMessage text)))) call_tags).
Proof.
  intros Hplain Hs Hlen. rewrite (log_object_large _ _ _ _ _ _ Hs Hlen).
  rewrite serialize_plain_primitive by done.
  rewrite (truncateLargeMessage_large text Hlen). reflexivity.
Qed.

Lemma log_plain_object_large_witness :
  log Sample.common_serialize Sample.plain_client Sample.large_object
      (VObject 1%positive) None
  = Ok (request_for Sample.plain_client
          (BodyValue (VString (message (truncateLargeMessage
             (js "{" ++ dq ++ js "a" ++ dq ++ js ":" ++ dq ++ Sample.letters
              ++ dq ++ js "}"))))) None).
Proof.
  apply (log_plain_object_large Sample.common_serialize Sample.plain_client
           Sample.large_object 1%positive).
  - reflexivity.
  - exact JSON_stringify_large_object.
  - exact large_object_over_limit.
Defined.

(** X10. In plain mode an object whose encoding is within the limit (and
    that is not an array sent in bulk mode) is handed to [common.serialize]
    as it is: the body is what that function returns, and what it throws
    leaves [log]. *)
Theorem log_plain_object_small common_serialize self h l text call_tags :
  json self = false →
  JSON.stringify h (VObject l) = Ok (Some text) →
  byteLength text <= EVENT_SIZE →
  isBulk self = false ∨ as_array h (VObject l) = None →
  log common_serialize self h (VObject l) call_tags
  = match common_serialize h (VObject l) with
    | Ok b => Ok (request_for self (BodyValue b) call_tags)
    | Throw ex => Throw ex
    | Stuck => Stuck
    end.
Proof.
  intros Hplain Hs Hlen Hbulk. rewrite (log_object_small _ _ _ _ _ _ Hs Hlen Hbulk).
  unfold serialize. cbn [instanceof_Object]. rewrite Hplain. reflexivity.
Qed.

Lemma log_plain_object_small_witness :
  log Sample.common_serialize Sample.plain_client Sample.small_object
      (VObject 1%positive) None
  = match Sample.common_serialize Sample.small_object (VObject 1%positive) with
    | Ok b => Ok (request_for Sample.plain_client (BodyValue b) None)
    | Throw ex => Throw ex
    | Stuck => Stuck
    end.
Proof.
  apply (log_plain_object_small Sample.common_serialize Sample.plain_client
           Sample.small_object 1%positive
           (js "{" ++ dq ++ js "a" ++ dq ++ js ":1}")).
  - reflexivity.
  - vm_compute. reflexivity.
  - vm_compute. discriminate.
  - left. reflexivity.
Defined.

(** X11. The headers of a request are [host], [accept], [user-agent] and
    [content-type], the tag header when there are tags and the client
    uses it, and [appName] when the client has one; no other header is
    ever set. The first three carry the host of the client, [*/*] and the
    user agent of the client. *)
Theorem request_headers common_serialize self h msg call_tags req :
  log common_serialize self h msg call_tags = Ok req →
  dom (headers req)
  = {[ "host"; "accept"; "user-agent"; "content-type" ]}
    ∪ (match default [] (merge_tags self call_tags) with
       | [] => ∅
       | _ :: _ => if useTagHeader self then {[ "X-LOGGLY-TAG" ]} else ∅
       end)
    ∪ (match appName self with Some _ => {[ "appName" ]} | None => ∅ end)
  ∧ headers req !! "host" = Some (host self)
  ∧ headers req !! "accept" = Some (js "*/*")
  ∧ headers req !! "user-agent" = Some (userAgent self)
  ∧ headers req !! "appName" = appName self.
Proof.
  intros Hlog. apply log_request_for in Hlog. rewrite Hlog.
  unfold request_for. cbv zeta.
  destruct (merge_tags self call_tags) as [[|t ts]|], (useTagHeader self),
    (appName self); cbn [default from_option id set_header append_uri headers];
    (split; [rewrite ?dom_insert_L, dom_empty_L; set_solver | by simplify_map_eq]).
Qed.

Lemma request_headers_witness :
  dom (headers Sample.tagged_request)
  = {[ "host"; "accept"; "user-agent"; "content-type" ]}
    ∪ (match default [] (merge_tags Sample.tagged_client (Some (TagMany [js "ok-1"]))) with
       | [] => ∅
       | _ :: _ => if useTagHeader Sample.tagged_client then {[ "X-LOGGLY-TAG" ]} else ∅
       end)
    ∪ (match appName Sample.tagged_client with Some _ => {[ "appName" ]} | None => ∅ end)
  ∧ headers Sample.tagged_request !! "host" = Some (host Sample.tagged_client)
  ∧ headers Sample.tagged_request !! "accept" = Some (js "*/*")
  ∧ headers Sample.tagged_request !! "user-agent" = Some (userAgent Sample.tagged_client)
  ∧ headers Sample.tagged_request !! "appName" = appName Sample.tagged_client.
Proof.
  apply (request_headers Sample.common_serialize Sample.tagged_client ∅
           (VString (js "hello")) (Some (TagMany [js "ok-1"])) Sample.tagged_request).
  vm_compute. reflexivity.
Defined.

(** ** More of the completion handler *)

(** X12. When the callback throws on being given the result, the handler
    catches that exception and calls the same callback a second time, now
    with an [Error] that wraps it: the callback is called twice. *)
Theorem on_response_callback_throws JSON_parse env res body result cb ex :
  statusCode res = 200 → body ≠ [] →
  JSON_parse body = Ok result →
  log_listeners env result = None →
  callback env = Some cb →
  cb (CbResult result) = Some ex →
  on_response JSON_parse env res body
  = ([Emit "log" result; Callback (CbResult result);
      Callback (CbError (js "Unspecified error from Loggly: " ++ exn_toString ex))],
     match cb (CbError (js "Unspecified error from Loggly: " ++ exn_toString ex)) with
     | None => Ok tt
     | Some ex' => Throw ex'
     end).
Proof.
  intros Hcode Hbody Hparse Hlisten Hcb Hthrow.
  rewrite on_response_then by assumption.
  unfold call_back. rewrite Hparse, Hcb.
  unfold Run.catch, Run.bind, Run.pure, Run.perform. rewrite Hlisten, Hthrow.
  reflexivity.
Qed.

Lemma on_response_callback_throws_witness :
  on_response Sample.JSON_parse (Callers.with_callback Callers.rejects_results)
    Callers.ok_response (js "true")
  = ([Emit "log" (VBoolean true); Callback (CbResult (VBoolean true));
      Callback (CbError (js "Unspecified error from Loggly: "
                         ++ exn_toString (Error (js "Error") (js "boom"))))],
     match Callers.rejects_results
             (CbError (js "Unspecified error from Loggly: "
                       ++ exn_toString (Error (js "Error") (js "boom")))) with
     | None => Ok tt
     | Some ex' => Throw ex'
     end).
Proof.
  apply (on_response_callback_throws Sample.JSON_parse
           (Callers.with_callback Callers.rejects_results) Callers.ok_response
           (js "true") (VBoolean true) Callers.rejects_results
           (Error (js "Error") (js "boom"))).
  - reflexivity.
  - discriminate.
  - reflexivity.
  - reflexivity.
  - reflexivity.
  - reflexivity.
Defined.

(** X13. When a listener of the [log] event throws, the callback is not
    called with the result: it is called once, with an [Error] that wraps
    the listener's exception. *)
Theorem on_response_listener_throws JSON_parse env res body result cb ex :
  statusCode res = 200 → body ≠ [] →
  JSON_parse body = Ok result →
  log_listeners env result = Some ex →
  callback env = Some cb →
  on_response JSON_parse env res body
  = ([Emit "log" result;
      Callback (CbError (js "Unspecified error from Loggly: " ++ exn_toString ex))],
     match cb (CbError (js "Unspecified error from Loggly: " ++ exn_toString ex)) with
     | None => Ok tt
     | Some ex' => Throw ex'
     end).
Proof.
  intros Hcode Hbody Hparse Hlisten Hcb.
  rewrite on_response_then by assumption.
  unfold call_back. rewrite Hparse, Hcb.
  unfold Run.catch, Run.bind, Run.pure, Run.perform. rewrite Hlisten.
  reflexivity.
Qed.

Lemma on_response_listener_throws_witness :
  on_response Sample.JSON_parse Callers.failing_listeners Callers.ok_response (js "true")
  = ([Emit "log" (VBoolean true);
      Callback (CbError (js "Unspecified error from Loggly: "
                         ++ exn_toString (Error (js "Error") (js "listener"))))],
     Ok tt).
Proof.
  apply (on_response_listener_throws Sample.JSON_parse Callers.failing_listeners
           Callers.ok_response (js "true") (VBoolean true) (λ _, None)
           (Error (js "Error") (js "listener"))).
  - reflexivity.
  - discriminate.
  - reflexivity.
  - reflexivity.
  - reflexivity.
Defined.

(** X14. An exception leaves the handler only when the callback throws on
    being given an error: exceptions of the parser, of the listeners and of
    the callback given a result are all caught. Without a callback the
    handler calls nothing back and never throws. *)
Theorem on_response_throw_origin JSON_parse env res body :
  (∀ ex, Run.outcome (on_response JSON_parse env res body) = Throw ex →
     ∃ cb m, callback env = Some cb ∧ cb (CbError m) = Some ex
             ∧ last (Run.trace (on_response JSON_parse env res body))
               = Some (Callback (CbError m)))
  ∧ (callback env = None →
     (∀ args, Callback args ∉ Run.trace (on_response JSON_parse env res body))
     ∧ ∀ ex, Run.outcome (on_response JSON_parse env res body) ≠ Throw ex).
Proof.
  assert (Hnone : callback env = None →
            ∀ args, Callback args ∉ Run.trace (on_response JSON_parse env res body)).
  { intros Hcb args. unfold on_response, call_back. rewrite Hcb.
    unfold Run.trace, Run.catch, Run.bind, Run.pure, Run.perform.
    destruct (truthy_string body && _); [|cbn; rewrite list_elem_of_singleton; discriminate].
    destruct (JSON_parse body) as [result|ex|]; cbn; [|apply not_elem_of_nil..].
    destruct (log_listeners env result); cbn;
      rewrite list_elem_of_singleton; discriminate. }
  assert (Horigin : ∀ ex, Run.outcome (on_response JSON_parse env res body) = Throw ex →
            ∃ cb m, callback env = Some cb ∧ cb (CbError m) = Some ex
                    ∧ last (Run.trace (on_response JSON_parse env res body))
                      = Some (Callback (CbError m))).
  { intros ex. unfold on_response, call_back.
    unfold Run.outcome, Run.trace, Run.catch, Run.bind, Run.pure, Run.perform.
    destruct (truthy_string body && _); [|discriminate].
    destruct (callback env) as [cb|].
    - destruct (JSON_parse body) as [result|ex0|]; cbn -[js]; [| |discriminate].
      + destruct (log_listeners env result) as [ex1|]; cbn -[js].
        * destruct (cb (CbError _)) as [ex2|] eqn:Hcb; cbn -[js]; [|discriminate].
          intros [= <-]. eexists cb, _. split; [reflexivity|]. split; [exact Hcb|reflexivity].
        * destruct (cb (CbResult result)) as [ex1|]; cbn -[js]; [|discriminate].
          destruct (cb (CbError _)) as [ex2|] eqn:Hcb; cbn -[js]; [|discriminate].
          intros [= <-]. eexists cb, _. split; [reflexivity|]. split; [exact Hcb|reflexivity].
      + destruct (cb (CbError _)) as [ex2|] eqn:Hcb; cbn -[js]; [|discriminate].
        intros [= <-]. eexists cb, _. split; [reflexivity|]. split; [exact Hcb|reflexivity].
    - destruct (JSON_parse body) as [result|ex0|]; cbn; try discriminate.
      destruct (log_listeners env result); cbn; discriminate. }
  split; [exact Horigin|]. intros Hcb. split; [exact (Hnone Hcb)|].
  intros ex Hex. destruct (Horigin ex Hex) as (cb & _ & Hsome & _). congruence.
Qed.

Lemma on_response_throw_origin_witness :
  (∃ cb m, callback (Callers.with_callback Callers.rejects_errors) = Some cb
           ∧ cb (CbError m) = Some (Error (js "Error") (js "boom"))
           ∧ last (Run.trace (on_response Sample.JSON_parse
                                (Callers.with_callback Callers.rejects_errors)
                                Callers.ok_response (js "<html>")))
             = Some (Callback (CbError m)))
  ∧ (∀ args, Callback args ∉ Run.trace (on_response Sample.JSON_parse Callers.no_callback
                                          Callers.ok_response (js "<html>"))).
Proof.
  split.
  - apply (proj1 (on_response_throw_origin Sample.JSON_parse
                    (Callers.with_callback Callers.rejects_errors)
                    Callers.ok_response (js "<html>"))
             (Error (js "Error") (js "boom"))).
    reflexivity.
  - apply (proj2 (on_response_throw_origin Sample.JSON_parse Callers.no_callback
                    Callers.ok_response (js "<html>"))).
    reflexivity.
Defined.

(** ** The account information *)

(** X15. The request of [customer] goes to
    [https://<subdomain>.loggly.com/<api>/customer] ([apiv2] unless
    configured) and carries the credentials of the client. *)
Theorem customer_request_shape version opts self :
  new_Loggly version (Some opts) = Ok self →
  customer_uri (customer_request self)
  = js "https://" ++ subdomain self ++ js ".loggly.com/"
    ++ or_else (opt_api opts) (js "apiv2") ++ js "/customer"
  ∧ customer_auth (customer_request self) = opt_auth opts.
Proof.
  intros Hnew. split.
  - unfold customer_request. cbn [customer_uri].
    rewrite (logglyUrl_shape_aux version opts self _ Hnew).
    cbn [fmap list_fmap concat]. rewrite app_nil_r. reflexivity.
  - unfold new_Loggly in Hnew.
    destruct (truthy_only (opt_subdomain opts)); [|discriminate].
    destruct (truthy_only (opt_token opts)); [|discriminate].
    injection Hnew as <-. reflexivity.
Qed.

Lemma customer_request_shape_witness :
  customer_uri (customer_request Sample.plain_client)
  = js "https://" ++ subdomain Sample.plain_client ++ js ".loggly.com/"
    ++ or_else (opt_api Sample.opts) (js "apiv2") ++ js "/customer"
  ∧ customer_auth (customer_request Sample.plain_client) = opt_auth Sample.opts.
Proof. apply (customer_request_shape (js "1.0.0") Sample.opts). reflexivity. Defined.

(** X16. The handler of [customer] never looks at the status of the
    response. With a callback it calls it exactly once: with the parser's
    exception itself when the body does not parse, with [(null, parsed)]
    when it does. Without a callback it ends in a [TypeError] either way,
    since it calls the callback without testing for it. *)
Theorem customer_on_response_calls JSON_parse res body :
  JSON_parse body ≠ Stuck →
  (∀ cb, ∃ args,
     fst (customer_on_response JSON_parse (Some cb) res body) = [args]
     ∧ match args with
       | CustomerError ex => JSON_parse body = Throw ex
       | CustomerResult customer => JSON_parse body = Ok customer
       end)
  ∧ customer_on_response JSON_parse None res body = ([], Throw not_a_function)
  ∧ ∀ callback res',
      customer_on_response JSON_parse callback res' body
      = customer_on_response JSON_parse callback res body.
Proof.
  intros Hparse. unfold customer_on_response, customer_call.
  destruct (JSON_parse body) as [customer|ex|]; [| |done].
  - split; [|split; reflexivity]. intros cb. eexists. split; reflexivity.
  - split; [|split; reflexivity]. intros cb. eexists. split; reflexivity.
Qed.

Lemma customer_on_response_calls_witness :
  customer_on_response Sample.JSON_parse None
    {| statusCode := 500; statusMessage := js "Internal Server Error" |} (js "null")
  = ([], Throw not_a_function).
Proof.
  apply (customer_on_response_calls Sample.JSON_parse
           {| statusCode := 500; statusMessage := js "Internal Server Error" |}
           (js "null")).
  discriminate.
Defined.
